(** * Image thumbnail handler: a shallow embedding of [image-processor/app.py]

    The handler [lambda_handler] is one Python function that talks to three
    collaborators: the object store ([s3]), the notifier ([sns]) and the
    imaging library ([PIL.Image]).  The embedding keeps the handler's control
    flow and string computations as executable definitions and treats the
    collaborators as functions of a [World] that either return a value or
    raise.  Every collaborator call is recorded, in order, in a trace, so
    that statements about which calls happen (and in which order) can be
    made.  [print] output is not modelled. *)

From Stdlib Require Import ZArith Ascii String List Bool Lia Sorted.
From stdpp Require Import gmap strings list.
Import ListNotations.

Set Warnings "-register-all".
Local Open Scope string_scope.
Local Open Scope Z_scope.
Local Open Scope list_scope.

(** ** Python strings

    A [str] is modelled by a Rocq [string].  Object keys in S3 event
    notifications are URL-encoded, so the characters that matter are ASCII. *)

Module PyStr.

Definition is_upper (c : ascii) : bool :=
  let n := nat_of_ascii c in ((65 <=? n)%nat && (n <=? 90)%nat)%bool.

Definition lower_char (c : ascii) : ascii :=
  if is_upper c then ascii_of_nat (nat_of_ascii c + 32) else c.

(** [s.lower()]: only [A]-[Z] are case-mapped.  No other character
    lowercases to one of the ASCII letters the handler compares against. *)
Fixpoint lower (s : string) : string :=
  match s with
  | EmptyString => EmptyString
  | String c s' => String (lower_char c) (lower s')
  end.

Definition len (s : string) : Z := Z.of_nat (String.length s).

(** [s[a:b]] for [0 <= a]. *)
Definition slice (s : string) (a b : Z) : string :=
  substring (Z.to_nat a) (Z.to_nat (b - a)) s.

(** [s.endswith(suffix)] for one suffix. *)
Definition endswith1 (s suffix : string) : bool :=
  (len suffix <=? len s) &&
  String.eqb (slice s (len s - len suffix) (len s)) suffix.

(** [s.endswith(suffixes)] for a tuple of suffixes. *)
Definition endswith (s : string) (suffixes : list string) : bool :=
  existsb (endswith1 s) suffixes.

(** [s.rfind(c)] for a one-character [c]: the highest index, or [-1]. *)
Fixpoint rfind_from (s : string) (c : ascii) (i : Z) (found : Z) : Z :=
  match s with
  | EmptyString => found
  | String d s' =>
      rfind_from s' c (i + 1) (if Ascii.eqb d c then i else found)
  end.

Definition rfind (s : string) (c : ascii) : Z := rfind_from s c 0 (-1).

(** [repr(s)] for a [str] without quotes, backslashes or control
    characters; the handler only ever builds [KeyError]s from such
    literals. *)
Definition repr (s : string) : string := "'" +:+ s +:+ "'".

End PyStr.

(** ** [os.path.splitext] (posixpath, via [genericpath._splitext]) *)

Module OsPath.
Import PyStr.

(** The [while filenameIndex < dotIndex] loop that skips leading dots.
    [n] is the number of iterations left, [dotIndex - filenameIndex].
    [Some] is the [return] inside the loop, [None] is falling out of it. *)
Fixpoint skip_leading_dots (p : string) (dotIndex : Z) (n : nat)
    (filenameIndex : Z) : option (string * string) :=
  match n with
  | O => None
  | S n' =>
      if negb (String.eqb (slice p filenameIndex (filenameIndex + 1)) ".")
      then Some (slice p 0 dotIndex, slice p dotIndex (len p))
      else skip_leading_dots p dotIndex n' (filenameIndex + 1)
  end.

Definition splitext (p : string) : string * string :=
  let sepIndex := rfind p "/" in
  let dotIndex := rfind p "." in
  if sepIndex <? dotIndex then
    let filenameIndex := sepIndex + 1 in
    match skip_leading_dots p dotIndex
            (Z.to_nat (dotIndex - filenameIndex)) filenameIndex with
    | Some r => r
    | None => (p, slice p 0 0)
    end
  else (p, slice p 0 0).

End OsPath.

(** ** Exceptions and outcomes *)

Inductive exn_class : Type :=
| KeyError
| IndexError
| TypeError
| AttributeError
| OtherException (name : string).

(** An exception instance: its class and [str(e)]. *)
Record exn : Type := Exn { exn_type : exn_class; exn_str : string }.

Inductive outcome (A : Type) : Type :=
| Ok (a : A)
| Raise (e : exn).
Arguments Ok {A} a.
Arguments Raise {A} e.

Definition exn_class_eqb (a b : exn_class) : bool :=
  match a, b with
  | KeyError, KeyError | IndexError, IndexError
  | TypeError, TypeError | AttributeError, AttributeError => true
  | OtherException x, OtherException y => String.eqb x y
  | _, _ => false
  end.

(** ** The event: a decoded JSON document

    Numbers are kept as integers: the handler never computes with one, and a
    number of either kind has no subscripts and no [lower] method. *)

Inductive json : Type :=
| JNull
| JBool (b : bool)
| JNum (n : Z)
| JStr (s : string)
| JList (l : list json)
| JDict (d : list (string * json)).

(** Lookup in a [dict] given as a list of items. *)
Fixpoint assoc {A : Type} (k : string) (d : list (string * A)) : option A :=
  match d with
  | [] => None
  | (k', v) :: d' => if String.eqb k k' then Some v else assoc k d'
  end.

(** The two kinds of subscript the handler uses: a string key, and the
    index [0]. *)
Inductive subscript : Type :=
| SKey (k : string)
| SZero.

Definition type_name (v : json) : string :=
  match v with
  | JNull => "NoneType"
  | JBool _ => "bool"
  | JNum _ => "int"
  | JStr _ => "str"
  | JList _ => "list"
  | JDict _ => "dict"
  end.

(** [v[k]] with Python's errors: a missing [dict] key is a [KeyError], index
    [0] of an empty [list] or [str] is an [IndexError], and a subscript of
    the wrong kind, or of a value that has no subscripts, is a [TypeError].
    A [dict] decoded from JSON has only string keys, so [d[0]] is a
    [KeyError]. *)
Definition getitem (v : json) (k : subscript) : outcome json :=
  match v, k with
  | JDict d, SKey s =>
      match assoc s d with
      | Some x => Ok x
      | None => Raise (Exn KeyError (PyStr.repr s))
      end
  | JDict d, SZero => Raise (Exn KeyError "0")
  | JList l, SZero =>
      match l with
      | x :: _ => Ok x
      | [] => Raise (Exn IndexError "list index out of range")
      end
  | JList _, SKey _ =>
      Raise (Exn TypeError "list indices must be integers or slices, not str")
  | JStr s, SZero =>
      match s with
      | String c _ => Ok (JStr (String c EmptyString))
      | EmptyString => Raise (Exn IndexError "string index out of range")
      end
  | JStr _, SKey _ =>
      Raise (Exn TypeError "string indices must be integers, not 'str'")
  | _, _ =>
      Raise (Exn TypeError
               ("'" +:+ type_name v +:+ "' object is not subscriptable"))
  end.

(** [v[k1][k2]...], left to right. *)
Fixpoint getpath (v : json) (ks : list subscript) : outcome json :=
  match ks with
  | [] => Ok v
  | k :: ks' =>
      match getitem v k with
      | Ok v' => getpath v' ks'
      | Raise e => Raise e
      end
  end.

(** ** [json.dumps] of a flat object of strings

    Default settings: [ensure_ascii=True], separators [", "] and [": "]. *)

Module Json.

Definition dquote : string := String (ascii_of_nat 34) EmptyString.
Definition backslash : string := String (ascii_of_nat 92) EmptyString.

Definition hex_digit (n : nat) : ascii :=
  if (n <? 10)%nat then ascii_of_nat (48 + n) else ascii_of_nat (87 + n).

Definition escape_char (c : ascii) : string :=
  let n := nat_of_ascii c in
  if (n =? 34)%nat then backslash +:+ dquote
  else if (n =? 92)%nat then backslash +:+ backslash
  else if (n =? 8)%nat then backslash +:+ "b"
  else if (n =? 12)%nat then backslash +:+ "f"
  else if (n =? 10)%nat then backslash +:+ "n"
  else if (n =? 13)%nat then backslash +:+ "r"
  else if (n =? 9)%nat then backslash +:+ "t"
  else if ((32 <=? n)%nat && (n <=? 126)%nat)%bool then String c EmptyString
  else backslash +:+ "u00" +:+
       String (hex_digit (n / 16)) (String (hex_digit (n mod 16)) EmptyString).

Fixpoint escape (s : string) : string :=
  match s with
  | EmptyString => EmptyString
  | String c s' => escape_char c +:+ escape s'
  end.

Definition dumps_str (s : string) : string := dquote +:+ escape s +:+ dquote.

Definition dumps_item (kv : string * string) : string :=
  dumps_str (fst kv) +:+ ": " +:+ dumps_str (snd kv).

Fixpoint dumps_items (items : list (string * string)) : string :=
  match items with
  | [] => ""
  | [kv] => dumps_item kv
  | kv :: rest => dumps_item kv +:+ ", " +:+ dumps_items rest
  end.

Definition dumps (items : list (string * string)) : string :=
  "{" +:+ dumps_items items +:+ "}".

End Json.

(** ** Collaborators *)

Definition bytes : Type := list Byte.byte.

(** What the handler can observe of a [PIL.Image.Image]: its [format]
    attribute ([None] or a format name), and the raster it holds. *)
Record Raster : Type := {
  mode : string;
  width : Z;
  height : Z;
  pixels : bytes
}.

Record Image : Type := {
  format : option string;
  raster : Raster
}.

(** Keyword arguments of [s3.put_object] and [sns.publish]. *)
Record PutRequest : Type := {
  Bucket : string;
  Key : string;
  Body : bytes;
  ContentType : string;
  StorageClass : string
}.

Record PublishRequest : Type := {
  TopicArn : string;
  Subject : string;
  Message : string
}.

(** The process environment and the collaborators' answers.  Each call
    returns or raises.  [s3_get_object] stands for [s3.get_object]
    followed by [response['Body'].read()]; the source bucket is passed
    on as the event has it, whatever its type.  [pil_thumbnail] answers the
    raster the image holds after the in-place [image.thumbnail(size)]. *)
Record World : Type := {
  environ : gmap string string;
  s3_get_object : json -> string -> outcome bytes;
  s3_put_object : PutRequest -> outcome unit;
  sns_publish : PublishRequest -> outcome unit;
  pil_open : bytes -> outcome Image;
  pil_thumbnail : Image -> Z * Z -> outcome Raster;
  pil_convert : Image -> string -> outcome Image;
  pil_save : Image -> string -> bool -> Z -> outcome bytes
}.

(** A collaborator call with its arguments. *)
Inductive call : Type :=
| GetObject (bucket : json) (key : string)
| PutObject (req : PutRequest)
| Publish (req : PublishRequest)
| ImageOpen (content : bytes)
| Thumbnail (image : Image) (size : Z * Z)
| Convert (image : Image) (to_mode : string)
| Save (image : Image) (save_format : string) (optimize : bool) (quality : Z).

(** ** The monad of the handler: exceptions over a trace of calls *)

Definition M (A : Type) : Type := list call -> outcome A * list call.

Definition ret {A : Type} (a : A) : M A := fun tr => (Ok a, tr).

Definition raise {A : Type} (e : exn) : M A := fun tr => (Raise e, tr).

Definition bind {A B : Type} (m : M A) (k : A -> M B) : M B :=
  fun tr =>
    match m tr with
    | (Ok a, tr') => k a tr'
    | (Raise e, tr') => (Raise e, tr')
    end.

(** [try: m  except Exception as e: h e] *)
Definition try_except {A : Type} (m : M A) (h : exn -> M A) : M A :=
  fun tr =>
    match m tr with
    | (Ok a, tr') => (Ok a, tr')
    | (Raise e, tr') => h e tr'
    end.

(** Record the call, then answer as the collaborator does. *)
Definition invoke {A : Type} (c : call) (answer : outcome A) : M A :=
  fun tr => (answer, tr ++ [c]).

Declare Scope handler_scope.
Delimit Scope handler_scope with handler.
Notation "x <- m ;; k" := (bind m (fun x => k))
  (at level 100, m at next level, right associativity) : handler_scope.
Notation "m ;;; k" := (bind m (fun _ => k))
  (at level 100, right associativity) : handler_scope.

(** [os.environ[name]] *)
Definition environ_getitem (w : World) (name : string) : M string :=
  match environ w !! name with
  | Some v => ret v
  | None => raise (Exn KeyError (PyStr.repr name))
  end.

(** [os.environ.get(name, default)] *)
Definition environ_get (w : World) (name default : string) : string :=
  match environ w !! name with
  | Some v => v
  | None => default
  end.

Local Open Scope handler_scope.

(** ** The handler *)

Record Response : Type := { statusCode : Z; body : string }.

Definition image_extensions : list string :=
  [".png"; ".jpg"; ".jpeg"; ".gif"; ".bmp"].

Definition records_path (field : list subscript) : list subscript :=
  [SKey "Records"; SZero; SKey "s3"] ++ field.

(** The two subscript chains of the first [try] block, in order. *)
Definition parse_event (event : json) : outcome (json * json) :=
  match getpath event (records_path [SKey "bucket"; SKey "name"]) with
  | Raise e => Raise e
  | Ok bucket =>
      match getpath event (records_path [SKey "object"; SKey "key"]) with
      | Raise e => Raise e
      | Ok key => Ok (bucket, key)
      end
  end.

(** [except (KeyError, IndexError)] *)
Definition is_KeyError_or_IndexError (e : exn) : bool :=
  exn_class_eqb (exn_type e) KeyError || exn_class_eqb (exn_type e) IndexError.

(** [key.lower().endswith(image_extensions)] once [key] is known to be a
    [str]. *)
Definition is_image_key (key : string) : bool :=
  PyStr.endswith (PyStr.lower key) image_extensions.

(** [os.environ.get('SEND_NOTIFICATIONS', 'false').lower() == 'true'] *)
Definition notifications_enabled (w : World) : bool :=
  String.eqb (PyStr.lower (environ_get w "SEND_NOTIFICATIONS" "false")) "true".

Definition new_key_of (key : string) : string :=
  "thumbnails/" +:+ fst (OsPath.splitext key) +:+ ".jpg".

(** Fetch, decode, resize and encode: from [s3.get_object] to
    [in_mem_file.seek(0)].  [image.thumbnail] changes the image in place, so
    the [format] attribute read afterwards is the one [Image.open] set. *)
Definition fetch_and_transform (w : World) (bucket : json) (key : string)
    : M bytes :=
  image_content <- invoke (GetObject bucket key) (s3_get_object w bucket key) ;;
  opened <- invoke (ImageOpen image_content) (pil_open w image_content) ;;
  r <- invoke (Thumbnail opened (150, 150))
         (pil_thumbnail w opened (150, 150)) ;;
  let image := {| format := format opened; raster := r |} in
  let converting : M (Image * string) :=
    image' <- invoke (Convert image "RGB") (pil_convert w image "RGB") ;;
    ret (image', "JPEG") in
  to_save <- match format image with
             | Some f => if String.eqb f "JPEG" then ret (image, f)
                         else converting
             | None => converting
             end ;;
  invoke (Save (fst to_save) (snd to_save) true 85)
    (pil_save w (fst to_save) (snd to_save) true 85).

(** The upload: read the destination bucket, derive the new key, put.
    Answers the destination bucket and the new key, which the rest of the
    [try] block uses. *)
Definition upload (w : World) (key : string) (in_mem_file : bytes)
    : M (string * string) :=
  destination_bucket <- environ_getitem w "DESTINATION_BUCKET" ;;
  let new_key := new_key_of key in
  let req := {| Bucket := destination_bucket; Key := new_key;
                Body := in_mem_file; ContentType := "image/jpeg";
                StorageClass := "STANDARD_IA" |} in
  invoke (PutObject req) (s3_put_object w req) ;;;
  ret (destination_bucket, new_key).

Definition transform_and_upload (w : World) (bucket : json) (key : string)
    : M (string * string) :=
  in_mem_file <- fetch_and_transform w bucket key ;;
  upload w key in_mem_file.

Definition success_publish (topic key destination_bucket new_key : string)
    : PublishRequest :=
  {| TopicArn := topic;
     Subject := "Image Processing Successful";
     Message := "Image " +:+ key +:+
                " was successfully processed and saved to " +:+
                destination_bucket +:+ "/" +:+ new_key |}.

Definition success_response (key new_key : string) : Response :=
  {| statusCode := 200;
     body := Json.dumps [("message", "Image processed successfully");
                         ("original_key", key);
                         ("processed_key", new_key)] |}.

(** The body of the second [try] block. *)
Definition process_image (w : World) (bucket : json) (key : string)
    : M Response :=
  dest <- transform_and_upload w bucket key ;;
  let destination_bucket := fst dest in
  let new_key := snd dest in
  (if notifications_enabled w then
     topic <- environ_getitem w "SNS_TOPIC_ARN" ;;
     let req := success_publish topic key destination_bucket new_key in
     invoke (Publish req) (sns_publish w req)
   else ret tt) ;;;
  ret (success_response key new_key).

Definition error_msg_of (key : string) (e : exn) : string :=
  "Error processing image " +:+ key +:+ ": " +:+ exn_str e.

Definition failure_publish (topic key : string) (e : exn) : PublishRequest :=
  {| TopicArn := topic;
     Subject := "Image Processing Failed";
     Message := error_msg_of key e |}.

(** The [except Exception as e] block: notify if enabled, then [raise e]. *)
Definition report_failure (w : World) (key : string) (e : exn) : M Response :=
  (if notifications_enabled w then
     topic <- environ_getitem w "SNS_TOPIC_ARN" ;;
     let req := failure_publish topic key e in
     invoke (Publish req) (sns_publish w req)
   else ret tt) ;;;
  raise e.

Definition invalid_event_response : Response :=
  {| statusCode := 400; body := "Invalid event structure" |}.

Definition skip_response : Response :=
  {| statusCode := 200; body := "Not an image file, skipping processing" |}.

(** [lambda_handler(event, context)]; [context] is never used. *)
Definition lambda_handler (w : World) (event : json) : M Response :=
  match parse_event event with
  | Raise e =>
      if is_KeyError_or_IndexError e then ret invalid_event_response
      else raise e
  | Ok (bucket, JStr key) =>
      if negb (is_image_key key) then ret skip_response
      else try_except (process_image w bucket key) (report_failure w key)
  | Ok (bucket, key) =>
      raise (Exn AttributeError
               ("'" +:+ type_name key +:+ "' object has no attribute 'lower'"))
  end.

(** One invocation: the result and the calls made, in order. *)
Definition result (w : World) (event : json) : outcome Response :=
  fst (lambda_handler w event []).

Definition calls (w : World) (event : json) : list call :=
  snd (lambda_handler w event []).

(** The uploads and the notifications of a trace. *)
Fixpoint puts (tr : list call) : list PutRequest :=
  match tr with
  | [] => []
  | PutObject req :: tr' => req :: puts tr'
  | _ :: tr' => puts tr'
  end.

Fixpoint publishes (tr : list call) : list PublishRequest :=
  match tr with
  | [] => []
  | Publish req :: tr' => req :: publishes tr'
  | _ :: tr' => publishes tr'
  end.

(** Calls to the object store's [put_object] or to the notifier. *)
Definition is_upload_or_publish (c : call) : bool :=
  match c with
  | PutObject _ | Publish _ => true
  | _ => false
  end.

Definition is_ok {A : Type} (r : outcome A) : bool :=
  match r with
  | Ok _ => true
  | Raise _ => false
  end.

(** Scan a trace, remembering in [uploaded] whether an upload has been
    acknowledged so far: no success notification comes before one. *)
Fixpoint upload_before_success (w : World) (uploaded : bool)
    (tr : list call) : bool :=
  match tr with
  | [] => true
  | PutObject req :: tr' =>
      upload_before_success w (uploaded || is_ok (s3_put_object w req)) tr'
  | Publish req :: tr' =>
      (negb (String.eqb (Subject req) "Image Processing Successful")
       || uploaded)
      && upload_before_success w uploaded tr'
  | _ :: tr' => upload_before_success w uploaded tr'
  end.

(** Whether character [c] occurs in [s]. *)
Fixpoint occurs (c : ascii) (s : string) : bool :=
  match s with
  | EmptyString => false
  | String d s' => Ascii.eqb d c || occurs c s'
  end.

(** ** The shape of an event, in the words of the interface description *)

(** The value found by following field names through nested mappings. *)
Fixpoint lookup_path (v : json) (names : list string) : option json :=
  match names with
  | [] => Some v
  | k :: names' =>
      match v with
      | JDict d =>
          match assoc k d with
          | Some v' => lookup_path v' names'
          | None => None
          end
      | _ => None
      end
  end.

(** A field is absent because some mapping on the way to it has no entry
    for the next name. *)
Fixpoint key_absent (v : json) (names : list string) : bool :=
  match names with
  | [] => false
  | k :: names' =>
      match v with
      | JDict d =>
          match assoc k d with
          | Some v' => key_absent v' names'
          | None => true
          end
      | _ => false
      end
  end.

Definition bucket_name_path : list string := ["s3"; "bucket"; "name"].
Definition object_key_path : list string := ["s3"; "object"; "key"].

Inductive missing_key_or_empty : json -> Prop :=
| records_missing (d : list (string * json)) :
    assoc "Records" d = None ->
    missing_key_or_empty (JDict d)
| records_empty (d : list (string * json)) :
    assoc "Records" d = Some (JList []) ->
    missing_key_or_empty (JDict d)
| bucket_name_absent (d : list (string * json)) (r : json) (rest : list json) :
    assoc "Records" d = Some (JList (r :: rest)) ->
    key_absent r bucket_name_path = true ->
    missing_key_or_empty (JDict d)
| object_key_absent (d : list (string * json)) (r : json) (rest : list json)
    (name : json) :
    assoc "Records" d = Some (JList (r :: rest)) ->
    lookup_path r bucket_name_path = Some name ->
    key_absent r object_key_path = true ->
    missing_key_or_empty (JDict d).

(** Following field names through nested mappings stops at a value that is
    present but is not a mapping. *)
Fixpoint hits_non_mapping (v : json) (names : list string) : bool :=
  match names with
  | [] => false
  | k :: names' =>
      match v with
      | JDict d =>
          match assoc k d with
          | Some v' => hits_non_mapping v' names'
          | None => false
          end
      | _ => true
      end
  end.

Definition is_str (v : json) : bool :=
  match v with
  | JStr _ => true
  | _ => false
  end.

(** A string made of dots only (the empty string included). *)
Fixpoint all_dots (s : string) : bool :=
  match s with
  | EmptyString => true
  | String c s' => Ascii.eqb c "." && all_dots s'
  end.

(** The place of a call in the pipeline. *)
Definition phase (c : call) : nat :=
  match c with
  | GetObject _ _ => 0
  | ImageOpen _ => 1
  | Thumbnail _ _ => 2
  | Convert _ _ => 3
  | Save _ _ _ _ => 4
  | PutObject _ => 5
  | Publish _ => 6
  end.

(** [c1] may come before [c2] in one invocation: it belongs to an earlier
    phase, or both are notifications. *)
Definition call_before (c1 c2 : call) : Prop :=
  (phase c1 < phase c2)%nat \/ (phase c1 = 6%nat /\ phase c2 = 6%nat).

(** ** The resize

    [n / d] rounded to the nearest integer, halves up, for [0 < d]. *)
Definition round_half_up (n d : Z) : Z := (2 * n + d) / (2 * d).

(** Modelled from the spec: the size that [image.thumbnail(bound)] leaves
    the image with.  The resize is done by Pillow's [Image.thumbnail], which
    is not part of the repository.  In the spec's words: the thumbnail
    preserves the aspect ratio so that neither dimension exceeds the bound;
    an image already within the bound is not enlarged; for a larger image
    the limiting side equals the bound and the other side is the scaled
    value "within rounding" (an 800x600 image gives 150x113, so 112.5 is
    rounded up); a side is at least one unit. *)
Definition thumbnail_size (bound size : Z * Z) : Z * Z :=
  let bw := fst bound in
  let bh := snd bound in
  let wd := fst size in
  let ht := snd size in
  if (wd <=? bw) && (ht <=? bh) then (wd, ht)
  else if ht * bw <=? wd * bh
       then (bw, Z.max 1 (round_half_up (ht * bw) wd))
       else (Z.max 1 (round_half_up (wd * bh) ht), bh).

(** ** An object store with state

    Objects by bucket and key.  [get_object] answers the stored bytes;
    [put_object] answers as the underlying world does, and an acknowledged
    put replaces the object. *)
Definition store_get (store : gmap (string * string) bytes) (bucket : json)
    (key : string) : outcome bytes :=
  match bucket with
  | JStr b =>
      match store !! (b, key) with
      | Some content => Ok content
      | None => Raise (Exn (OtherException "NoSuchKey")
                         "The specified key does not exist.")
      end
  | _ => Raise (Exn (OtherException "ParamValidationError")
                  "Invalid type for parameter Bucket")
  end.

Definition world_on (base : World) (store : gmap (string * string) bytes)
    : World :=
  {| environ := environ base;
     s3_get_object := store_get store;
     s3_put_object := s3_put_object base;
     sns_publish := sns_publish base;
     pil_open := pil_open base;
     pil_thumbnail := pil_thumbnail base;
     pil_convert := pil_convert base;
     pil_save := pil_save base |}.

Fixpoint apply_puts (w : World) (store : gmap (string * string) bytes)
    (reqs : list PutRequest) : gmap (string * string) bytes :=
  match reqs with
  | [] => store
  | req :: reqs' =>
      apply_puts w
        (if is_ok (s3_put_object w req)
         then <[(Bucket req, Key req) := Body req]> store
         else store)
        reqs'
  end.

(** The store an invocation with trace [tr] leaves behind. *)
Definition store_after (w : World) (store : gmap (string * string) bytes)
    (tr : list call) : gmap (string * string) bytes :=
  apply_puts w store (puts tr).

(** ** Sample events and worlds *)

Module Sample.

Definition s3_event (bucket key : string) : json :=
  JDict [("Records",
          JList [JDict [("s3",
                         JDict [("bucket", JDict [("name", JStr bucket)]);
                                ("object", JDict [("key", JStr key)])])]])].

(** A stand-in imaging library: an empty payload does not decode, a
    payload starting with [0xff] is a JPEG, anything else a PNG. *)
Definition toy_open (content : bytes) : outcome Image :=
  match content with
  | [] => Raise (Exn (OtherException "UnidentifiedImageError")
                   "cannot identify image file")
  | Byte.xff :: _ =>
      Ok {| format := Some "JPEG";
            raster := {| mode := "RGB"; width := 100; height := 80;
                         pixels := content |} |}
  | _ =>
      Ok {| format := Some "PNG";
            raster := {| mode := "RGBA"; width := 800; height := 600;
                         pixels := content |} |}
  end.

(** Fit into [size], rounding the scaled side to the nearest unit; an
    image already within [size] is left as it is. *)
Definition toy_thumbnail (image : Image) (size : Z * Z) : outcome Raster :=
  let wd := width (raster image) in
  let ht := height (raster image) in
  let fitted :=
    if (wd <=? fst size) && (ht <=? snd size) then (wd, ht)
    else if ht * fst size <=? wd * snd size
         then (fst size, Z.max 1 ((2 * ht * fst size + wd) / (2 * wd)))
         else (Z.max 1 ((2 * wd * snd size + ht) / (2 * ht)), snd size) in
  Ok {| mode := mode (raster image);
        width := fst fitted;
        height := snd fitted;
        pixels := pixels (raster image) |}.

Definition toy_convert (image : Image) (to_mode : string) : outcome Image :=
  Ok {| format := None;
        raster := {| mode := to_mode; width := width (raster image);
                     height := height (raster image);
                     pixels := pixels (raster image) |} |}.

Definition toy_save (image : Image) (save_format : string) (optimize : bool)
    (quality : Z) : outcome bytes :=
  Ok (Byte.xff :: Byte.xd8 :: pixels (raster image)).

Definition world_with (env : list (string * string))
    (get : json -> string -> outcome bytes)
    (put : PutRequest -> outcome unit)
    (publish : PublishRequest -> outcome unit) : World :=
  {| environ := list_to_map env;
     s3_get_object := get;
     s3_put_object := put;
     sns_publish := publish;
     pil_open := toy_open;
     pil_thumbnail := toy_thumbnail;
     pil_convert := toy_convert;
     pil_save := toy_save |}.

Definition get_ok (bucket : json) (key : string) : outcome bytes :=
  Ok [Byte.x89; Byte.x50].

Definition no_such_key : exn :=
  Exn (OtherException "NoSuchKey") "The specified key does not exist.".

Definition get_fails (bucket : json) (key : string) : outcome bytes :=
  Raise no_such_key.

Definition put_ok (req : PutRequest) : outcome unit := Ok tt.

Definition publish_ok (req : PublishRequest) : outcome unit := Ok tt.

Definition topic_gone : exn :=
  Exn (OtherException "NotFoundException") "Topic does not exist".

Definition publish_fails (req : PublishRequest) : outcome unit :=
  Raise topic_gone.

(** Only the success notification is refused. *)
Definition publish_fails_on_success (req : PublishRequest) : outcome unit :=
  if String.eqb (Subject req) "Image Processing Successful"
  then Raise topic_gone else Ok tt.

Definition env_notifying : list (string * string) :=
  [("DESTINATION_BUCKET", "thumbs"); ("SEND_NOTIFICATIONS", "true");
   ("SNS_TOPIC_ARN", "arn:aws:sns:topic")].

Definition env_silent : list (string * string) :=
  [("DESTINATION_BUCKET", "thumbs"); ("SEND_NOTIFICATIONS", "false");
   ("SNS_TOPIC_ARN", "arn:aws:sns:topic")].

Definition env_no_destination : list (string * string) :=
  [("SEND_NOTIFICATIONS", "true"); ("SNS_TOPIC_ARN", "arn:aws:sns:topic")].

Definition happy : World := world_with env_notifying get_ok put_ok publish_ok.

Definition silent : World := world_with env_silent get_ok put_ok publish_ok.

Definition fetch_fails_notifier_fails : World :=
  world_with env_notifying get_fails put_ok publish_fails.

Definition fetch_fails : World :=
  world_with env_notifying get_fails put_ok publish_ok.

Definition no_destination : World :=
  world_with env_no_destination get_ok put_ok publish_ok.

Definition success_publish_fails : World :=
  world_with env_notifying get_ok put_ok publish_fails_on_success.

(** A second deployment of the same code: same environment and library,
    but its store refuses the upload and its notifier is down. *)
Definition put_denied (req : PutRequest) : outcome unit :=
  Raise (Exn (OtherException "AccessDenied") "Access Denied").

Definition happy_again : World :=
  world_with env_notifying get_ok put_denied publish_fails.

Definition vacation : json := s3_event "uploads" "photos/vacation.PNG".

Definition notes : json := s3_event "uploads" "docs/notes.txt".

Definition no_records : json := JDict [("Records", JList [])].

(** [{"Records": [{"s3": null}]}] *)
Definition null_s3_record : json := JDict [("s3", JNull)].
Definition null_s3 : json := JDict [("Records", JList [null_s3_record])].

(** A well-formed event whose object key is a number. *)
Definition numeric_key : json :=
  JDict [("Records",
          JList [JDict [("s3",
                         JDict [("bucket", JDict [("name", JStr "b")]);
                                ("object", JDict [("key", JNum 7)])])]])].

(** [vacation]'s record followed by two more entries. *)
Definition batch : json :=
  JDict [("Records",
          JList [JDict [("s3",
                         JDict [("bucket", JDict [("name", JStr "uploads")]);
                                ("object",
                                 JDict [("key",
                                         JStr "photos/vacation.PNG")])])];
                 JNull; JStr "second record"])].

Definition silent_put_denied : World :=
  world_with env_silent get_ok put_denied publish_ok.

Definition no_topic : World :=
  world_with [("DESTINATION_BUCKET", "thumbs"); ("SEND_NOTIFICATIONS", "True")]
    get_ok put_ok publish_ok.

Definition no_destination_notifier_fails : World :=
  world_with env_no_destination get_ok put_ok publish_fails.

(** A store that holds the source object of [vacation]. *)
Definition uploads : gmap (string * string) bytes :=
  {[ ("uploads", "photos/vacation.PNG") := [Byte.x89; Byte.x50] ]}.

(** The store the first invocation on [vacation] leaves behind. *)
Definition uploads_after_first : gmap (string * string) bytes :=
  store_after (world_on happy uploads) uploads
    (calls (world_on happy uploads) vacation).

End Sample.

(** ** Proof tools *)

Arguments notifications_enabled : simpl never.
Arguments new_key_of : simpl never.
Arguments success_publish : simpl never.
Arguments failure_publish : simpl never.
Arguments success_response : simpl never.
Arguments error_msg_of : simpl never.
Arguments is_image_key : simpl never.

Ltac unfold_handler :=
  unfold process_image, report_failure, transform_and_upload,
    fetch_and_transform, upload, environ_getitem, try_except, bind, invoke,
    ret, raise in *.

(** Split on the answer of the next collaborator call, environment lookup
    or test the run depends on. *)
Ltac next_answer :=
  match goal with
  | |- context [notifications_enabled ?w] =>
      destruct (notifications_enabled w) eqn:?
  | |- context [environ ?w !! ?k] => destruct (environ w !! k) eqn:?
  | |- context [s3_get_object ?w ?b ?k] =>
      destruct (s3_get_object w b k) eqn:?
  | |- context [pil_open ?w ?c] => destruct (pil_open w c) eqn:?
  | |- context [pil_thumbnail ?w ?i ?s] =>
      destruct (pil_thumbnail w i s) eqn:?
  | |- context [match format ?i with _ => _ end] =>
      destruct (format i) eqn:?
  | |- context [if String.eqb ?a ?b then _ else _] =>
      destruct (String.eqb a b) eqn:?
  | |- context [pil_convert ?w ?i ?m] => destruct (pil_convert w i m) eqn:?
  | |- context [pil_save ?w ?i ?f ?o ?q] =>
      destruct (pil_save w i f o q) eqn:?
  | |- context [s3_put_object ?w ?r] => destruct (s3_put_object w r) eqn:?
  | |- context [sns_publish ?w ?r] => destruct (sns_publish w r) eqn:?
  end.

Ltac all_runs := unfold_handler; repeat (cbn; next_answer); cbn.

(** * Proofs *)

(** ** Strings *)

Lemma substring_whole (s : string) : substring 0 (String.length s) s = s.
Proof. induction s as [|c s IH]; simpl; [reflexivity | now rewrite IH]. Qed.

Lemma substring_after_prefix (pre suf : string) :
  substring (String.length pre) (String.length suf) (pre +:+ suf) = suf.
Proof.
  induction pre as [|c pre IH]; simpl.
  - apply substring_whole.
  - exact IH.
Qed.

Lemma substring_split (s : string) (n : nat) :
  (n <= String.length s)%nat ->
  s = substring 0 n s +:+ substring n (String.length s - n) s.
Proof.
  revert n; induction s as [|c s IH]; intros [|n] Hn; simpl in *;
    try reflexivity; try lia.
  - now rewrite substring_whole.
  - transitivity
      (String c (substring 0 n s +:+ substring n (String.length s - n) s));
      [f_equal; apply IH; lia | reflexivity].
Qed.

Lemma length_append (a b : string) :
  String.length (a +:+ b) = (String.length a + String.length b)%nat.
Proof. induction a as [|c a IH]; simpl; [reflexivity | now rewrite IH]. Qed.

(** [endswith1] decides "ends in". *)
Lemma endswith1_spec (s suffix : string) :
  PyStr.endswith1 s suffix = true <-> exists stem, s = stem +:+ suffix.
Proof.
  unfold PyStr.endswith1, PyStr.slice, PyStr.len. split.
  - intros H. apply andb_true_iff in H as [Hle Heq].
    apply Z.leb_le in Hle. apply String.eqb_eq in Heq.
    replace (Z.to_nat (Z.of_nat (String.length s)
                       - Z.of_nat (String.length suffix)))
      with (String.length s - String.length suffix)%nat in Heq by lia.
    replace (Z.to_nat (Z.of_nat (String.length s)
                       - (Z.of_nat (String.length s)
                          - Z.of_nat (String.length suffix))))
      with (String.length s
            - (String.length s - String.length suffix))%nat in Heq by lia.
    exists (substring 0 (String.length s - String.length suffix) s).
    etransitivity;
      [apply (substring_split s (String.length s - String.length suffix));
       lia | f_equal; exact Heq].
  - intros [stem ->]. rewrite length_append.
    apply andb_true_iff. split; [apply Z.leb_le; lia|].
    apply String.eqb_eq.
    replace (Z.to_nat (Z.of_nat (String.length stem + String.length suffix)
                       - Z.of_nat (String.length suffix)))
      with (String.length stem) by lia.
    replace (Z.to_nat (Z.of_nat (String.length stem + String.length suffix)
                       - (Z.of_nat (String.length stem + String.length suffix)
                          - Z.of_nat (String.length suffix))))
      with (String.length suffix) by lia.
    apply substring_after_prefix.
Qed.

Lemma is_image_key_spec (key : string) :
  is_image_key key = true <->
  exists ext stem, In ext image_extensions /\ PyStr.lower key = stem +:+ ext.
Proof.
  unfold is_image_key, PyStr.endswith. rewrite existsb_exists. split.
  - intros (ext & Hin & H). apply endswith1_spec in H as [stem H]. eauto.
  - intros (ext & stem & Hin & H). exists ext. split; [exact Hin|].
    apply endswith1_spec. eauto.
Qed.

(** ** Parsing the event *)

Lemma getpath_lookup_path (names : list string) :
  forall (v x : json),
    lookup_path v names = Some x -> getpath v (map SKey names) = Ok x.
Proof.
  induction names as [|k names IH]; intros v x H; simpl in *.
  - congruence.
  - destruct v; try discriminate. simpl.
    destruct (assoc k d) as [v'|]; [now apply IH | discriminate].
Qed.

Lemma getpath_key_absent (names : list string) :
  forall v : json,
    key_absent v names = true ->
    exists text, getpath v (map SKey names) = Raise (Exn KeyError text).
Proof.
  induction names as [|k names IH]; intros v H; simpl in *.
  - discriminate.
  - destruct v; try discriminate. simpl.
    destruct (assoc k d) as [v'|]; [now apply IH | eauto].
Qed.

Lemma getpath_first_record (d : list (string * json)) (r : json)
    (rest : list json) (names : list string) :
  assoc "Records" d = Some (JList (r :: rest)) ->
  getpath (JDict d) (SKey "Records" :: SZero :: map SKey names)
  = getpath r (map SKey names).
Proof. intros H. simpl. now rewrite H. Qed.

Lemma parse_event_first_record (d : list (string * json)) (r : json)
    (rest : list json) :
  assoc "Records" d = Some (JList (r :: rest)) ->
  parse_event (JDict d) =
  match getpath r (map SKey bucket_name_path) with
  | Raise e => Raise e
  | Ok bucket =>
      match getpath r (map SKey object_key_path) with
      | Raise e => Raise e
      | Ok key => Ok (bucket, key)
      end
  end.
Proof.
  intros H. unfold parse_event.
  change (records_path [SKey "bucket"; SKey "name"])
    with (SKey "Records" :: SZero :: map SKey bucket_name_path).
  change (records_path [SKey "object"; SKey "key"])
    with (SKey "Records" :: SZero :: map SKey object_key_path).
  now rewrite !(getpath_first_record d r rest _ H).
Qed.

(** The events of [missing_key_or_empty] are those on which the first
    [try] block raises one of the two exceptions it catches. *)
Lemma parse_event_missing (event : json) :
  missing_key_or_empty event ->
  exists e, parse_event event = Raise e /\ is_KeyError_or_IndexError e = true.
Proof.
  intros [d H | d H | d r rest H Habs | d r rest name H Hname Habs].
  - eexists. unfold parse_event. simpl. rewrite H. split; reflexivity.
  - eexists. unfold parse_event. simpl. rewrite H. split; reflexivity.
  - rewrite (parse_event_first_record d r rest H).
    destruct (getpath_key_absent _ _ Habs) as [text ->].
    eexists; split; reflexivity.
  - rewrite (parse_event_first_record d r rest H).
    rewrite (getpath_lookup_path _ _ _ Hname).
    destruct (getpath_key_absent _ _ Habs) as [text ->].
    eexists; split; reflexivity.
Qed.

(** ** Malformed events *)

(** C1, as amended.  If ['Records'] is missing from the event, or is an
    empty list, or the first record has no bucket name because a mapping on
    the way to it (the record, [s3], [bucket]) has no entry for the next
    name, or the first record has a bucket name but no object key because a
    mapping on the way to the key (the record, [s3], [object]) has no entry
    for the next name, then the handler returns
    [{statusCode: 400, body: 'Invalid event structure'}]; it raises nothing
    and calls no collaborator, so it publishes nothing. *)
Theorem malformed_event_returns_400 (w : World) (event : json) :
  missing_key_or_empty event ->
  result w event
  = Ok {| statusCode := 400; body := "Invalid event structure" |}
  /\ calls w event = [].
Proof.
  intros H. destruct (parse_event_missing event H) as (e & Hparse & Hcatch).
  unfold result, calls, lambda_handler. rewrite Hparse, Hcatch.
  split; reflexivity.
Qed.

Lemma malformed_event_returns_400_witness :
  result Sample.happy Sample.no_records
  = Ok {| statusCode := 400; body := "Invalid event structure" |}
  /\ calls Sample.happy Sample.no_records = [].
Proof.
  apply (malformed_event_returns_400 Sample.happy Sample.no_records).
  apply (records_empty [("Records", JList [])]). reflexivity.
Defined.

(** C1, as stated, fails: in [{"Records": [{"s3": null}]}] the first record
    has no bucket name, yet the handler raises a [TypeError], which the
    first [try] block does not catch, instead of returning the 400 result. *)
Lemma null_s3_raises_TypeError :
  lookup_path Sample.null_s3_record bucket_name_path = None
  /\ result Sample.happy Sample.null_s3
     = Raise (Exn TypeError "'NoneType' object is not subscriptable")
  /\ result Sample.happy Sample.null_s3
     <> Ok {| statusCode := 400; body := "Invalid event structure" |}.
Proof. split; [reflexivity | split; [reflexivity | discriminate]]. Qed.

(** ** Keys that are not images *)

(** C2.  For a well-formed event whose key, lowercased, does not end in
    [.png], [.jpg], [.jpeg], [.gif] or [.bmp], the handler returns
    [{statusCode: 200, body: 'Not an image file, skipping processing'}] and
    calls neither the object store nor the notifier (it makes no call). *)
Theorem non_image_key_skipped (w : World) (event bucket : json)
    (key : string) :
  parse_event event = Ok (bucket, JStr key) ->
  (forall ext stem, In ext [".png"; ".jpg"; ".jpeg"; ".gif"; ".bmp"] ->
                    PyStr.lower key <> stem +:+ ext) ->
  result w event
  = Ok {| statusCode := 200;
          body := "Not an image file, skipping processing" |}
  /\ calls w event = [].
Proof.
  intros Hparse Hext.
  assert (Hkey : is_image_key key = false).
  { destruct (is_image_key key) eqn:E; [|reflexivity].
    apply is_image_key_spec in E as (ext & stem & Hin & Heq).
    exfalso. exact (Hext ext stem Hin Heq). }
  unfold result, calls, lambda_handler. rewrite Hparse, Hkey.
  split; reflexivity.
Qed.

Lemma non_image_key_skipped_witness :
  result Sample.happy Sample.notes
  = Ok {| statusCode := 200;
          body := "Not an image file, skipping processing" |}
  /\ calls Sample.happy Sample.notes = [].
Proof.
  apply (non_image_key_skipped Sample.happy Sample.notes
           (JStr "uploads") "docs/notes.txt").
  - reflexivity.
  - intros ext stem Hin Heq.
    assert (E : is_image_key "docs/notes.txt" = true)
      by (apply is_image_key_spec; exists ext, stem; split; assumption).
    vm_compute in E. discriminate E.
Defined.

(** ** The processing block, piece by piece *)

Lemma handler_processing (w : World) (event bucket : json) (key : string) :
  parse_event event = Ok (bucket, JStr key) ->
  is_image_key key = true ->
  lambda_handler w event
  = try_except (process_image w bucket key) (report_failure w key).
Proof.
  intros Hparse Hkey. unfold lambda_handler. now rewrite Hparse, Hkey.
Qed.

Lemma report_failure_run (w : World) (key : string) (e : exn)
    (tr : list call) :
  report_failure w key e tr =
  if notifications_enabled w then
    match environ w !! "SNS_TOPIC_ARN" with
    | None => (Raise (Exn KeyError "'SNS_TOPIC_ARN'"), tr)
    | Some topic =>
        (match sns_publish w (failure_publish topic key e) with
         | Ok _ => Raise e
         | Raise e' => Raise e'
         end,
         tr ++ [Publish (failure_publish topic key e)])
    end
  else (Raise e, tr).
Proof. all_runs; reflexivity. Qed.

Lemma report_failure_raises (w : World) (key : string) (e : exn)
    (tr : list call) :
  exists e', fst (report_failure w key e tr) = Raise e'.
Proof. rewrite report_failure_run. repeat next_answer; cbn; eauto. Qed.

Lemma process_image_run (w : World) (bucket : json) (key : string)
    (tr0 : list call) :
  process_image w bucket key tr0 =
  match transform_and_upload w bucket key tr0 with
  | (Raise e, tr) => (Raise e, tr)
  | (Ok dest, tr) =>
      if notifications_enabled w then
        match environ w !! "SNS_TOPIC_ARN" with
        | None => (Raise (Exn KeyError "'SNS_TOPIC_ARN'"), tr)
        | Some topic =>
            let req := success_publish topic key (fst dest) (snd dest) in
            (match sns_publish w req with
             | Ok _ => Ok (success_response key (snd dest))
             | Raise e => Raise e
             end,
             tr ++ [Publish req])
        end
      else (Ok (success_response key (snd dest)), tr)
  end.
Proof.
  unfold process_image, bind at 1.
  destruct (transform_and_upload w bucket key tr0) as [[dest|e] tr];
    [|reflexivity].
  unfold environ_getitem, bind, invoke, ret, raise.
  repeat next_answer; reflexivity.
Qed.

Lemma transform_and_upload_run (w : World) (bucket : json) (key : string)
    (tr0 : list call) :
  transform_and_upload w bucket key tr0 =
  match fetch_and_transform w bucket key tr0 with
  | (Raise e, tr) => (Raise e, tr)
  | (Ok in_mem_file, tr) => upload w key in_mem_file tr
  end.
Proof.
  unfold transform_and_upload, bind.
  now destruct (fetch_and_transform w bucket key tr0) as [[b|e] tr].
Qed.

Lemma upload_run (w : World) (key : string) (in_mem_file : bytes)
    (tr : list call) :
  upload w key in_mem_file tr =
  match environ w !! "DESTINATION_BUCKET" with
  | None => (Raise (Exn KeyError "'DESTINATION_BUCKET'"), tr)
  | Some destination_bucket =>
      let req := {| Bucket := destination_bucket; Key := new_key_of key;
                    Body := in_mem_file; ContentType := "image/jpeg";
                    StorageClass := "STANDARD_IA" |} in
      (match s3_put_object w req with
       | Ok _ => Ok (destination_bucket, new_key_of key)
       | Raise e => Raise e
       end,
       tr ++ [PutObject req])
  end.
Proof.
  unfold upload, environ_getitem, bind, invoke, ret, raise.
  repeat next_answer; reflexivity.
Qed.

Lemma publishes_app (tr1 tr2 : list call) :
  publishes (tr1 ++ tr2) = publishes tr1 ++ publishes tr2.
Proof.
  induction tr1 as [|c tr1 IH]; [reflexivity|].
  destruct c; simpl; now rewrite ?IH.
Qed.

Lemma puts_app (tr1 tr2 : list call) :
  puts (tr1 ++ tr2) = puts tr1 ++ puts tr2.
Proof.
  induction tr1 as [|c tr1 IH]; [reflexivity|].
  destruct c; simpl; now rewrite ?IH.
Qed.

(** Fetching and transforming neither uploads nor notifies. *)
Lemma fetch_and_transform_quiet (w : World) (bucket : json) (key : string)
    (r : outcome bytes) (tr : list call) :
  fetch_and_transform w bucket key [] = (r, tr) ->
  puts tr = [] /\ publishes tr = [].
Proof.
  unfold fetch_and_transform, bind, invoke, ret, raise.
  repeat (cbn; next_answer); cbn; intros [= <- <-]; split; reflexivity.
Qed.

Lemma notifications_enabled_true (w : World) :
  environ w !! "SEND_NOTIFICATIONS" = Some "true" ->
  notifications_enabled w = true.
Proof.
  intros H. unfold notifications_enabled, environ_get. now rewrite H.
Qed.

(** A failure between fetch and upload reaches the [except] block with the
    calls made so far. *)
Lemma handler_failure_run (w : World) (event bucket : json) (key : string)
    (e : exn) (tr : list call) :
  parse_event event = Ok (bucket, JStr key) ->
  is_image_key key = true ->
  transform_and_upload w bucket key [] = (Raise e, tr) ->
  lambda_handler w event [] = report_failure w key e tr.
Proof.
  intros Hparse Hkey Hfail.
  rewrite (handler_processing w event bucket key Hparse Hkey).
  unfold try_except. now rewrite process_image_run, Hfail.
Qed.

Lemma transform_and_upload_no_publish (w : World) (bucket : json)
    (key : string) (r : outcome (string * string)) (tr : list call) :
  transform_and_upload w bucket key [] = (r, tr) -> publishes tr = [].
Proof.
  rewrite transform_and_upload_run.
  destruct (fetch_and_transform w bucket key []) as [[b|e] tr1] eqn:E;
    destruct (fetch_and_transform_quiet _ _ _ _ _ E) as [_ Hq].
  - rewrite upload_run. repeat next_answer; cbn; intros [= <- <-];
      rewrite ?publishes_app, Hq; reflexivity.
  - now intros [= <- <-].
Qed.

(** ** Failures while processing *)




(** ** One equation for the whole processing path *)

Lemma handler_run (w : World) (event bucket : json) (key : string) :
  parse_event event = Ok (bucket, JStr key) ->
  is_image_key key = true ->
  lambda_handler w event [] =
  match transform_and_upload w bucket key [] with
  | (Raise e, tr) => report_failure w key e tr
  | (Ok dest, tr) =>
      if notifications_enabled w then
        match environ w !! "SNS_TOPIC_ARN" with
        | None => report_failure w key (Exn KeyError "'SNS_TOPIC_ARN'") tr
        | Some topic =>
            let req := success_publish topic key (fst dest) (snd dest) in
            match sns_publish w req with
            | Ok _ => (Ok (success_response key (snd dest)),
                       tr ++ [Publish req])
            | Raise e => report_failure w key e (tr ++ [Publish req])
            end
        end
      else (Ok (success_response key (snd dest)), tr)
  end.
Proof.
  intros Hparse Hkey.
  rewrite (handler_processing w event bucket key Hparse Hkey).
  unfold try_except. rewrite process_image_run.
  destruct (transform_and_upload w bucket key []) as [[dest|e] tr];
    [|reflexivity].
  cbv zeta. repeat next_answer; reflexivity.
Qed.

Lemma report_failure_puts (w : World) (key : string) (e : exn)
    (tr : list call) :
  puts (snd (report_failure w key e tr)) = puts tr.
Proof.
  rewrite report_failure_run.
  repeat next_answer; cbn [snd]; rewrite ?puts_app, ?app_nil_r; reflexivity.
Qed.

(** Notifying adds no upload: the uploads of an invocation are those made
    between fetch and upload. *)
Lemma handler_puts (w : World) (event bucket : json) (key : string) :
  parse_event event = Ok (bucket, JStr key) ->
  is_image_key key = true ->
  puts (calls w event) = puts (snd (transform_and_upload w bucket key [])).
Proof.
  intros Hparse Hkey. unfold calls.
  rewrite (handler_run w event bucket key Hparse Hkey).
  destruct (transform_and_upload w bucket key []) as [[dest|e] tr];
    cbn [snd]; [|apply report_failure_puts].
  cbv zeta. repeat next_answer; rewrite ?report_failure_puts; cbn [snd];
    rewrite ?puts_app, ?app_nil_r; reflexivity.
Qed.

(** What a run from fetch to upload can look like. *)
Lemma transform_and_upload_cases (w : World) (bucket : json) (key : string) :
  match transform_and_upload w bucket key [] with
  | (Ok dest, tr) =>
      exists in_mem_file tr1 destination_bucket,
        fetch_and_transform w bucket key [] = (Ok in_mem_file, tr1)
        /\ environ w !! "DESTINATION_BUCKET" = Some destination_bucket
        /\ dest = (destination_bucket, new_key_of key)
        /\ let req := {| Bucket := destination_bucket;
                         Key := new_key_of key;
                         Body := in_mem_file;
                         ContentType := "image/jpeg";
                         StorageClass := "STANDARD_IA" |} in
           s3_put_object w req = Ok tt
           /\ tr = tr1 ++ [PutObject req] /\ puts tr = [req]
  | (Raise e, tr) =>
      (fetch_and_transform w bucket key [] = (Raise e, tr) /\ puts tr = [])
      \/ (exists in_mem_file,
            fetch_and_transform w bucket key [] = (Ok in_mem_file, tr)
            /\ environ w !! "DESTINATION_BUCKET" = None
            /\ e = Exn KeyError "'DESTINATION_BUCKET'" /\ puts tr = [])
      \/ (exists in_mem_file tr1 destination_bucket,
            fetch_and_transform w bucket key [] = (Ok in_mem_file, tr1)
            /\ environ w !! "DESTINATION_BUCKET" = Some destination_bucket
            /\ let req := {| Bucket := destination_bucket;
                             Key := new_key_of key;
                             Body := in_mem_file;
                             ContentType := "image/jpeg";
                             StorageClass := "STANDARD_IA" |} in
               s3_put_object w req = Raise e
               /\ tr = tr1 ++ [PutObject req] /\ puts tr = [req])
  end.
Proof.
  rewrite transform_and_upload_run.
  destruct (fetch_and_transform w bucket key []) as [[b|e] tr1] eqn:E;
    destruct (fetch_and_transform_quiet _ _ _ _ _ E) as [Hp _].
  - rewrite upload_run.
    destruct (environ w !! "DESTINATION_BUCKET") as [db|] eqn:Hdb.
    + cbn zeta.
      match goal with
      | |- context [s3_put_object w ?r] =>
          destruct (s3_put_object w r) as [[]|e] eqn:Hput
      end.
      * exists b, tr1, db. rewrite puts_app, Hp.
        repeat split; solve [reflexivity | assumption].
      * right; right. exists b, tr1, db. rewrite puts_app, Hp.
        repeat split; solve [reflexivity | assumption].
    + right; left. exists b. repeat split; assumption.
  - left. split; [reflexivity | assumption].
Qed.

(** ** The destination key *)

(** C4.  For a well-formed event with an image key, every upload of the
    invocation goes to the key ["thumbnails/" + splitext(key)[0] + ".jpg"],
    whatever the extension; and when the handler completes with a result,
    exactly one upload was made and acknowledged, to the bucket named by
    [DESTINATION_BUCKET] under that key, and the result is the success
    result whose [processed_key] is that same key. *)
Theorem destination_key_derived (w : World) (event bucket : json)
    (key : string) :
  parse_event event = Ok (bucket, JStr key) ->
  is_image_key key = true ->
  let new_key := "thumbnails/" +:+ fst (OsPath.splitext key) +:+ ".jpg" in
  (forall req, In req (puts (calls w event)) -> Key req = new_key)
  /\ (forall resp,
        result w event = Ok resp ->
        (exists req,
           puts (calls w event) = [req]
           /\ Key req = new_key
           /\ environ w !! "DESTINATION_BUCKET" = Some (Bucket req)
           /\ s3_put_object w req = Ok tt)
        /\ resp = {| statusCode := 200;
                     body := Json.dumps
                               [("message", "Image processed successfully");
                                ("original_key", key);
                                ("processed_key", new_key)] |}).
Proof.
  intros Hparse Hkey new_key.
  pose proof (transform_and_upload_cases w bucket key) as Hcases.
  pose proof (handler_run w event bucket key Hparse Hkey) as Hrun.
  pose proof (handler_puts w event bucket key Hparse Hkey) as Hputs.
  destruct (transform_and_upload w bucket key []) as [[dest|e] tr].
  - destruct Hcases as (body & tr1 & db & _ & Hdb & -> & Hput & _ & Hp).
    cbn [snd fst] in *. rewrite Hp in Hputs. split.
    + intros req Hin. rewrite Hputs in Hin.
      destruct Hin as [<-|[]]. reflexivity.
    + intros resp Hres. unfold result in Hres. rewrite Hrun in Hres.
      assert (Hresp : resp = success_response key (new_key_of key)).
      { revert Hres. repeat next_answer; cbn [fst];
          try (intros [= <-]; reflexivity);
          intros Hres;
          match type of Hres with
          | fst (report_failure ?w ?k ?e ?t) = _ =>
              destruct (report_failure_raises w k e t) as [e' He'];
              rewrite He' in Hres; discriminate Hres
          end. }
      split; [|exact Hresp].
      eexists. split; [exact Hputs|].
      split; [reflexivity|]. split; [exact Hdb | exact Hput].
  - split.
    + intros req Hin. rewrite Hputs in Hin. cbn [snd] in Hin.
      destruct Hcases as [[_ Hp] | [(b & _ & _ & _ & Hp)
                                   | (b & tr1 & db & _ & _ & _ & _ & Hp)]];
        rewrite Hp in Hin;
        [destruct Hin | destruct Hin | destruct Hin as [<-|[]]; reflexivity].
    + intros resp Hres. unfold result in Hres. rewrite Hrun in Hres.
      destruct (report_failure_raises w key e tr) as [e' He'].
      rewrite He' in Hres. discriminate Hres.
Qed.

Lemma destination_key_derived_witness :
  puts (calls Sample.happy Sample.vacation)
  = [{| Bucket := "thumbs"; Key := "thumbnails/photos/vacation.jpg";
        Body := [Byte.xff; Byte.xd8; Byte.x89; Byte.x50];
        ContentType := "image/jpeg"; StorageClass := "STANDARD_IA" |}]
  /\ exists resp,
       result Sample.happy Sample.vacation = Ok resp
       /\ resp = success_response "photos/vacation.PNG"
                   "thumbnails/photos/vacation.jpg".
Proof.
  destruct (destination_key_derived Sample.happy Sample.vacation
              (JStr "uploads") "photos/vacation.PNG" eq_refl eq_refl)
    as [_ Hres].
  split; [reflexivity|].
  eexists. split; [reflexivity|].
  exact (proj2 (Hres _ eq_refl)).
Defined.

(** ** Re-encoding *)

(** Once the image is fetched, decoded and resized, the encode step is
    decided by the [format] attribute alone. *)
Lemma fetch_and_transform_decoded (w : World) (bucket : json) (key : string)
    (content : bytes) (opened : Image) (r : Raster) :
  s3_get_object w bucket key = Ok content ->
  pil_open w content = Ok opened ->
  pil_thumbnail w opened (150, 150) = Ok r ->
  let image := {| format := format opened; raster := r |} in
  let fetched := [GetObject bucket key; ImageOpen content;
                  Thumbnail opened (150, 150)] in
  fetch_and_transform w bucket key [] =
  if decide (format opened = Some "JPEG") then
    (pil_save w image "JPEG" true 85,
     fetched ++ [Save image "JPEG" true 85])
  else
    match pil_convert w image "RGB" with
    | Ok image' =>
        (pil_save w image' "JPEG" true 85,
         fetched ++ [Convert image "RGB"; Save image' "JPEG" true 85])
    | Raise e => (Raise e, fetched ++ [Convert image "RGB"])
    end.
Proof.
  intros Hget Hopen Hthumb image fetched.
  unfold fetch_and_transform, bind, invoke, ret, raise.
  cbn. rewrite Hget, Hopen, Hthumb. cbn. fold image.
  destruct (format opened) as [f|] eqn:Hf.
  - destruct (String.eqb f "JPEG") eqn:Hjpeg.
    + apply String.eqb_eq in Hjpeg as ->.
      rewrite decide_True by reflexivity. cbn.
      now destruct (pil_save w image "JPEG" true 85).
    + apply String.eqb_neq in Hjpeg.
      rewrite decide_False by congruence. cbn.
      destruct (pil_convert w image "RGB") as [image'|e]; [|reflexivity].
      cbn. now destruct (pil_save w image' "JPEG" true 85).
  - rewrite decide_False by discriminate. cbn.
    destruct (pil_convert w image "RGB") as [image'|e]; [|reflexivity].
    cbn. now destruct (pil_save w image' "JPEG" true 85).
Qed.

(** Whatever [fetch_and_transform] answers was answered by a [save] with
    format [JPEG], [optimize=True] and [quality=85]. *)
Lemma fetch_and_transform_saved (w : World) (bucket : json) (key : string)
    (in_mem_file : bytes) (tr : list call) :
  fetch_and_transform w bucket key [] = (Ok in_mem_file, tr) ->
  exists image,
    In (Save image "JPEG" true 85) tr
    /\ pil_save w image "JPEG" true 85 = Ok in_mem_file.
Proof.
  unfold fetch_and_transform, bind, invoke, ret, raise.
  repeat (cbn; next_answer); cbn; intros [= <- <-];
    try match goal with
        | H : String.eqb _ "JPEG" = true |- _ =>
            apply String.eqb_eq in H; subst
        end;
    eexists; (split; [|eassumption]); cbn; auto 10.
Qed.

(** After the transform, the handler only uploads and notifies. *)
Lemma handler_calls_after_transform (w : World) (event bucket : json)
    (key : string) :
  parse_event event = Ok (bucket, JStr key) ->
  is_image_key key = true ->
  exists rest,
    calls w event = snd (fetch_and_transform w bucket key []) ++ rest
    /\ forallb is_upload_or_publish rest = true.
Proof.
  intros Hparse Hkey. unfold calls.
  rewrite (handler_run w event bucket key Hparse Hkey).
  rewrite transform_and_upload_run.
  destruct (fetch_and_transform w bucket key []) as [[b|e] tr1]; cbn [snd].
  - rewrite upload_run. cbv zeta.
    repeat (rewrite ?report_failure_run; next_answer); cbn [snd];
      rewrite <- ?app_assoc;
      try (eexists; split; [reflexivity | reflexivity]);
      exists []; rewrite app_nil_r; split; reflexivity.
  - rewrite report_failure_run.
    repeat next_answer; cbn [snd];
      try (eexists; split; [reflexivity | reflexivity]);
      exists []; rewrite app_nil_r; split; reflexivity.
Qed.

(** ** Notifications disabled *)

Lemma publishes_none_when_disabled (w : World) (event : json) :
  notifications_enabled w = false -> publishes (calls w event) = [].
Proof.
  intros Hoff. unfold calls.
  destruct (parse_event event) as [[bucket key]|e] eqn:Hparse.
  - destruct key as [| | |key| |];
      try (unfold lambda_handler; rewrite Hparse; reflexivity).
    destruct (is_image_key key) eqn:Hkey;
      [|unfold lambda_handler; rewrite Hparse, Hkey; reflexivity].
    rewrite (handler_run w event bucket key Hparse Hkey).
    destruct (transform_and_upload w bucket key []) as [r tr] eqn:Hrun.
    pose proof (transform_and_upload_no_publish w bucket key r tr Hrun).
    destruct r; rewrite ?report_failure_run, Hoff; assumption.
  - unfold lambda_handler. rewrite Hparse.
    now destruct (is_KeyError_or_IndexError e).
Qed.

(** C7.  If [SEND_NOTIFICATIONS] is unset, or set to a value whose
    lowercase form is not exactly ['true'] (['false'] among them), then no
    publish call is made, whatever the event and whatever the collaborators
    answer: on the success, skip, malformed-input and failure paths alike. *)
Theorem no_publish_unless_enabled (w : World) (event : json) :
  environ w !! "SEND_NOTIFICATIONS" = None
  \/ (exists v, environ w !! "SEND_NOTIFICATIONS" = Some v
                /\ PyStr.lower v <> "true") ->
  publishes (calls w event) = [].
Proof.
  intros H. apply publishes_none_when_disabled.
  unfold notifications_enabled, environ_get.
  destruct H as [-> | (v & -> & Hv)]; [reflexivity|].
  now apply String.eqb_neq.
Qed.

Lemma no_publish_unless_enabled_witness :
  publishes (calls Sample.silent Sample.vacation) = []
  /\ result Sample.silent Sample.vacation
     = Ok (success_response "photos/vacation.PNG"
             "thumbnails/photos/vacation.jpg").
Proof.
  split; [|reflexivity].
  apply (no_publish_unless_enabled Sample.silent Sample.vacation).
  right. exists "false". split; [reflexivity | discriminate].
Defined.

(** The values the flag is compared against after lowercasing. *)
Example flag_values :
  map (fun v => String.eqb (PyStr.lower v) "true")
      ["true"; "TRUE"; "True"; "false"; "1"; "yes"; "True "; ""]
  = [true; true; true; false; false; false; false; false].
Proof. reflexivity. Qed.

(** ** Two invocations *)

Lemma fetch_and_transform_same (w1 w2 : World) (bucket : json)
    (key : string) (tr : list call) :
  s3_get_object w1 bucket key = s3_get_object w2 bucket key ->
  pil_open w1 = pil_open w2 ->
  pil_thumbnail w1 = pil_thumbnail w2 ->
  pil_convert w1 = pil_convert w2 ->
  pil_save w1 = pil_save w2 ->
  fetch_and_transform w1 bucket key tr = fetch_and_transform w2 bucket key tr.
Proof.
  intros Hget Hopen Hthumb Hconv Hsave. unfold fetch_and_transform.
  now rewrite Hget, Hopen, Hthumb, Hconv, Hsave.
Qed.

Lemma upload_puts_same (w1 w2 : World) (key : string) (in_mem_file : bytes)
    (tr : list call) :
  environ w1 = environ w2 ->
  puts (snd (upload w1 key in_mem_file tr))
  = puts (snd (upload w2 key in_mem_file tr)).
Proof.
  intros Henv. rewrite !upload_run, Henv.
  destruct (environ w2 !! "DESTINATION_BUCKET"); [|reflexivity].
  cbn [snd]. now rewrite !puts_app.
Qed.

(** ** Upload first, then the success notification *)

Lemma upload_before_success_quiet (w : World) (uploaded : bool)
    (tr1 tr2 : list call) :
  puts tr1 = [] ->
  publishes tr1 = [] ->
  upload_before_success w uploaded (tr1 ++ tr2)
  = upload_before_success w uploaded tr2.
Proof.
  induction tr1 as [|c tr1 IH]; [reflexivity|].
  destruct c; simpl; intros Hp Hn; try discriminate; now apply IH.
Qed.

(** What [upload_before_success] checks, said with positions in the
    trace. *)
Lemma upload_before_success_sound (w : World) (tr : list call) :
  forall uploaded,
    upload_before_success w uploaded tr = true ->
    forall pre req post,
      tr = pre ++ Publish req :: post ->
      Subject req = "Image Processing Successful" ->
      uploaded = true
      \/ exists put, In (PutObject put) pre /\ s3_put_object w put = Ok tt.
Proof.
  induction tr as [|c tr IH]; intros uploaded Hchk pre req post Heq Hsubj.
  - now destruct pre.
  - destruct pre as [|c' pre]; simpl in Heq; injection Heq as Hc Ht; subst.
    + simpl in Hchk. rewrite Hsubj in Hchk. simpl in Hchk.
      apply andb_true_iff in Hchk as [Hu _]. now left.
    + assert (Hstep :
        exists uploaded',
          upload_before_success w uploaded' (pre ++ Publish req :: post)
          = true
          /\ (uploaded' = true ->
              uploaded = true
              \/ exists put, c' = PutObject put
                             /\ s3_put_object w put = Ok tt)).
      { destruct c' as [| put | note | | | |]; simpl in Hchk;
          try (exists uploaded; split; [exact Hchk | now left]).
        - eexists; split; [exact Hchk|]. intros Hor.
          apply orb_true_iff in Hor as [Hu|Hok]; [now left|].
          right. exists put. split; [reflexivity|].
          destruct (s3_put_object w put) as [[]|]; [reflexivity|].
          discriminate Hok.
        - apply andb_true_iff in Hchk as [_ Hchk].
          exists uploaded; split; [exact Hchk | now left]. }
      destruct Hstep as (uploaded' & Hchk' & Hup).
      destruct (IH uploaded' Hchk' pre req post eq_refl Hsubj)
        as [Hu | (put & Hin & Hput)].
      * destruct (Hup Hu) as [Hu' | (put & -> & Hput)]; [now left|].
        right. exists put. split; [now left | exact Hput].
      * right. exists put. split; [now right | exact Hput].
Qed.

Lemma upload_before_success_quiet_only (w : World) (uploaded : bool)
    (tr : list call) :
  puts tr = [] ->
  publishes tr = [] ->
  upload_before_success w uploaded tr = true.
Proof.
  intros Hp Hn. rewrite <- (app_nil_r tr).
  now rewrite upload_before_success_quiet.
Qed.

Lemma handler_upload_before_success (w : World) (event : json) :
  upload_before_success w false (calls w event) = true.
Proof.
  unfold calls.
  destruct (parse_event event) as [[bucket key]|e] eqn:Hparse.
  - destruct key as [| | |key| |];
      try (unfold lambda_handler; rewrite Hparse; reflexivity).
    destruct (is_image_key key) eqn:Hkey;
      [|unfold lambda_handler; rewrite Hparse, Hkey; reflexivity].
    rewrite (handler_run w event bucket key Hparse Hkey).
    rewrite transform_and_upload_run.
    destruct (fetch_and_transform w bucket key []) as [[b|e] tr1] eqn:E;
      destruct (fetch_and_transform_quiet _ _ _ _ _ E) as [Hp Hn].
    + rewrite upload_run. cbv zeta.
      repeat (rewrite ?report_failure_run; next_answer); cbn [snd];
        rewrite <- ?app_assoc;
        first [ rewrite upload_before_success_quiet by assumption
              | rewrite upload_before_success_quiet_only by assumption ];
        cbn;
        repeat match goal with
               | H : s3_put_object _ _ = _ |- _ => rewrite H
               end;
        reflexivity.
    + rewrite report_failure_run.
      repeat next_answer; cbn [snd];
        first [ rewrite upload_before_success_quiet by assumption
              | rewrite upload_before_success_quiet_only by assumption ];
        reflexivity.
  - unfold lambda_handler. rewrite Hparse.
    now destruct (is_KeyError_or_IndexError e).
Qed.

(** C10.  In every invocation, a publish with subject ['Image Processing
    Successful'] comes after an upload that the store acknowledged.  And
    when, with notifications enabled, the upload has been made and the
    success publish itself raises [e], the handler goes to the [except]
    block: it attempts a publish with subject ['Image Processing Failed']
    carrying [str(e)], raises ([e], or the error of that second publish) and
    does not return the success result, although the thumbnail has been
    written. *)
Theorem upload_precedes_success_publish (w : World) (event : json) :
  (forall pre req post,
     calls w event = pre ++ Publish req :: post ->
     Subject req = "Image Processing Successful" ->
     exists put, In (PutObject put) pre /\ s3_put_object w put = Ok tt)
  /\ (forall bucket key dest tr topic e,
        parse_event event = Ok (bucket, JStr key) ->
        is_image_key key = true ->
        transform_and_upload w bucket key [] = (Ok dest, tr) ->
        notifications_enabled w = true ->
        environ w !! "SNS_TOPIC_ARN" = Some topic ->
        let succeeded :=
          {| TopicArn := topic;
             Subject := "Image Processing Successful";
             Message := "Image " +:+ key +:+
                        " was successfully processed and saved to " +:+
                        fst dest +:+ "/" +:+ snd dest |} in
        let failed :=
          {| TopicArn := topic;
             Subject := "Image Processing Failed";
             Message := "Error processing image " +:+ key +:+ ": "
                        +:+ exn_str e |} in
        sns_publish w succeeded = Raise e ->
        calls w event = tr ++ [Publish succeeded; Publish failed]
        /\ (exists put, puts tr = [put] /\ s3_put_object w put = Ok tt)
        /\ result w event = match sns_publish w failed with
                            | Ok _ => Raise e
                            | Raise e' => Raise e'
                            end).
Proof.
  split.
  - intros pre req post Hcalls Hsubj.
    destruct (upload_before_success_sound w (calls w event) false
                (handler_upload_before_success w event)
                pre req post Hcalls Hsubj) as [Hu | Hput];
      [discriminate Hu | exact Hput].
  - intros bucket key dest tr topic e Hparse Hkey Hrun Hon Htopic
      succeeded failed Hpub.
    pose proof (transform_and_upload_cases w bucket key) as Hcases.
    rewrite Hrun in Hcases.
    destruct Hcases as (b & tr1 & db & _ & _ & _ & Hput & _ & Hp).
    unfold calls, result.
    rewrite (handler_run w event bucket key Hparse Hkey), Hrun, Hon, Htopic.
    cbv zeta. change (success_publish topic key (fst dest) (snd dest))
      with succeeded.
    rewrite Hpub, report_failure_run, Hon, Htopic.
    change (failure_publish topic key e) with failed. cbn [fst snd].
    rewrite <- app_assoc. split; [reflexivity|].
    split; [|reflexivity]. eexists. split; [exact Hp | exact Hput].
Qed.

Lemma upload_precedes_success_publish_witness :
  calls Sample.success_publish_fails Sample.vacation
  = snd (transform_and_upload Sample.success_publish_fails (JStr "uploads")
           "photos/vacation.PNG" [])
    ++ [Publish {| TopicArn := "arn:aws:sns:topic";
                   Subject := "Image Processing Successful";
                   Message := "Image photos/vacation.PNG was successfully processed and saved to thumbs/thumbnails/photos/vacation.jpg" |};
        Publish {| TopicArn := "arn:aws:sns:topic";
                   Subject := "Image Processing Failed";
                   Message := "Error processing image photos/vacation.PNG: Topic does not exist" |}]
  /\ result Sample.success_publish_fails Sample.vacation
     = Raise Sample.topic_gone.
Proof.
  destruct (upload_precedes_success_publish Sample.success_publish_fails
              Sample.vacation) as [_ H].
  destruct (H (JStr "uploads") "photos/vacation.PNG"
              ("thumbs", "thumbnails/photos/vacation.jpg")
              (snd (transform_and_upload Sample.success_publish_fails
                      (JStr "uploads") "photos/vacation.PNG" []))
              "arn:aws:sns:topic" Sample.topic_gone
              eq_refl eq_refl eq_refl eq_refl eq_refl eq_refl)
    as (Hcalls & _ & Hres).
  split; [exact Hcalls | exact Hres].
Defined.

(** ** What [splitext] strips *)

Lemma rfind_from_app (a b : string) (c : ascii) :
  forall i found,
    PyStr.rfind_from (a +:+ b) c i found
    = PyStr.rfind_from b c (i + PyStr.len a) (PyStr.rfind_from a c i found).
Proof.
  unfold PyStr.len. induction a as [|d a IH]; intros i found.
  - simpl. now rewrite Z.add_0_r.
  - change (String d a +:+ b) with (String d (a +:+ b)).
    cbn [PyStr.rfind_from String.length]. rewrite IH. f_equal. lia.
Qed.

Lemma rfind_from_absent (s : string) (c : ascii) :
  occurs c s = false ->
  forall i found, PyStr.rfind_from s c i found = found.
Proof.
  induction s as [|d s IH]; intros Hocc i found; [reflexivity|].
  simpl in *. apply orb_false_iff in Hocc as [-> Hocc]. now apply IH.
Qed.

Lemma rfind_from_bound (s : string) (c : ascii) :
  forall i found,
    found < i -> PyStr.rfind_from s c i found < i + PyStr.len s.
Proof.
  unfold PyStr.len. induction s as [|d s IH]; intros i found Hlt.
  - simpl. lia.
  - cbn [PyStr.rfind_from String.length].
    specialize (IH (i + 1) (if Ascii.eqb d c then i else found)).
    destruct (Ascii.eqb d c); lia.
Qed.

Lemma append_assoc (a b c : string) : (a +:+ b) +:+ c = a +:+ (b +:+ c).
Proof.
  induction a as [|d a IH]; [reflexivity|].
  change (String d ((a +:+ b) +:+ c) = String d (a +:+ (b +:+ c))).
  now rewrite IH.
Qed.

Lemma slice_prefix (a b : string) : PyStr.slice (a +:+ b) 0 (PyStr.len a) = a.
Proof.
  unfold PyStr.slice, PyStr.len. rewrite Z.sub_0_r, Nat2Z.id.
  change (Z.to_nat 0) with 0%nat.
  induction a as [|d a IH].
  - now destruct b.
  - change (String d a +:+ b) with (String d (a +:+ b)).
    cbn [String.length substring]. now rewrite IH.
Qed.

Lemma slice_suffix (a b : string) :
  PyStr.slice (a +:+ b) (PyStr.len a) (PyStr.len (a +:+ b)) = b.
Proof.
  unfold PyStr.slice, PyStr.len. rewrite length_append, Nat2Z.id.
  replace (Z.to_nat (Z.of_nat (String.length a + String.length b)
                     - Z.of_nat (String.length a)))
    with (String.length b) by lia.
  apply substring_after_prefix.
Qed.

Lemma slice_char (a b : string) (d : ascii) :
  PyStr.slice (a +:+ String d b) (PyStr.len a) (PyStr.len a + 1)
  = String d EmptyString.
Proof.
  unfold PyStr.slice, PyStr.len. rewrite Nat2Z.id.
  replace (Z.to_nat (Z.of_nat (String.length a) + 1
                     - Z.of_nat (String.length a))) with 1%nat by lia.
  induction a as [|d' a IH]; simpl.
  - now destruct b.
  - exact IH.
Qed.

(** The loop returns as soon as it meets a character that is not a dot. *)
Lemma skip_leading_dots_finds (p : string) (dotIndex j : Z) (d : ascii) :
  PyStr.slice p j (j + 1) = String d EmptyString ->
  d <> "."%char ->
  forall n i,
    i <= j < i + Z.of_nat n ->
    OsPath.skip_leading_dots p dotIndex n i
    = Some (PyStr.slice p 0 dotIndex, PyStr.slice p dotIndex (PyStr.len p)).
Proof.
  intros Hj Hd. induction n as [|n IH]; intros i Hi; [lia|].
  cbn [OsPath.skip_leading_dots].
  destruct (String.eqb (PyStr.slice p i (i + 1)) ".") eqn:E; cbn [negb];
    [|reflexivity].
  apply String.eqb_eq in E.
  assert (i <> j) by (intros ->; rewrite Hj in E; congruence).
  apply IH. lia.
Qed.

(** A key that ends in a dot and an extension without dots or slashes
    loses exactly that extension, provided the file name in front of it has
    a character that is not a dot. *)
Lemma splitext_strips (dir name ext : string) (d : ascii) :
  occurs "/" name = false ->
  d <> "."%char -> d <> "/"%char ->
  occurs "." ext = false -> occurs "/" ext = false ->
  let stem := dir +:+ String d name in
  OsPath.splitext (stem +:+ String "." ext) = (stem, String "." ext).
Proof.
  intros Hname Hd Hd' Hdot Hsep stem. unfold OsPath.splitext, PyStr.rfind.
  assert (Hdotidx :
    PyStr.rfind_from (stem +:+ String "." ext) "." 0 (-1) = PyStr.len stem).
  { rewrite rfind_from_app. cbn [PyStr.rfind_from Ascii.eqb Bool.eqb].
    now rewrite rfind_from_absent. }
  assert (Hsepidx :
    PyStr.rfind_from (stem +:+ String "." ext) "/" 0 (-1)
    = PyStr.rfind_from dir "/" 0 (-1)).
  { rewrite rfind_from_app. cbn [PyStr.rfind_from Ascii.eqb Bool.eqb].
    rewrite (rfind_from_absent ext) by assumption.
    unfold stem. rewrite rfind_from_app. cbn [PyStr.rfind_from].
    rewrite (proj2 (Ascii.eqb_neq d "/") Hd').
    now rewrite rfind_from_absent. }
  rewrite Hdotidx, Hsepidx.
  pose proof (rfind_from_bound dir "/" 0 (-1) ltac:(lia)) as Hb.
  assert (Hlen : PyStr.len stem = PyStr.len dir + 1 + PyStr.len name).
  { unfold stem, PyStr.len. rewrite length_append. simpl. lia. }
  assert (Hnn : 0 <= PyStr.len name) by (unfold PyStr.len; lia).
  destruct (Z.ltb_spec (PyStr.rfind_from dir "/" 0 (-1)) (PyStr.len stem));
    [|lia].
  cbv zeta.
  rewrite (skip_leading_dots_finds _ (PyStr.len stem) (PyStr.len dir) d).
  - now rewrite slice_prefix, slice_suffix.
  - unfold stem. rewrite append_assoc.
    change (String d name +:+ String "." ext)
      with (String d (name +:+ String "." ext)).
    apply slice_char.
  - exact Hd.
  - lia.
Qed.

Example splitext_samples :
  map OsPath.splitext
      ["photos/vacation.PNG"; "a.b/c.d.jpeg"; "dir/.png"; "..gif"; "plain"]
  = [("photos/vacation", ".PNG"); ("a.b/c.d", ".jpeg"); ("dir/.png", "");
     ("..gif", ""); ("plain", "")].
Proof. reflexivity. Qed.

Example new_key_samples :
  map new_key_of ["photos/vacation.PNG"; "cat.gif"; "dir/.png"]
  = ["thumbnails/photos/vacation.jpg"; "thumbnails/cat.jpg";
     "thumbnails/dir/.png.jpg"].
Proof. reflexivity. Qed.

(** * Further properties of the handler *)

(** ** Events the first [try] block does not rescue *)

Lemma getpath_hits_non_mapping (names : list string) :
  forall v : json,
    hits_non_mapping v names = true ->
    exists msg, getpath v (map SKey names) = Raise (Exn TypeError msg).
Proof.
  induction names as [|k names IH]; intros v H; simpl in *.
  - discriminate.
  - destruct v; simpl; eauto.
    destruct (assoc k d) as [v'|]; [now apply IH | discriminate].
Qed.

(** X1.  When, in the first record, a value that is present but is not a
    mapping ([null], a number, a string, a list) lies on the way to the
    bucket name, or the bucket name is found and such a value lies on the
    way to the object key, the handler raises a [TypeError] to the caller:
    it does not return the 400 result, and it calls no collaborator. *)
Theorem wrong_type_raises_TypeError (w : World) (d : list (string * json))
    (r : json) (rest : list json) :
  assoc "Records" d = Some (JList (r :: rest)) ->
  hits_non_mapping r bucket_name_path = true
  \/ ((exists name, lookup_path r bucket_name_path = Some name)
      /\ hits_non_mapping r object_key_path = true) ->
  (exists msg, result w (JDict d) = Raise (Exn TypeError msg))
  /\ calls w (JDict d) = [].
Proof.
  intros Hrec Hbad.
  assert (Hparse : exists msg, parse_event (JDict d)
                               = Raise (Exn TypeError msg)).
  { rewrite (parse_event_first_record d r rest Hrec).
    destruct Hbad as [Hb | [[name Hname] Hk]].
    - destruct (getpath_hits_non_mapping _ _ Hb) as [msg ->]. eauto.
    - rewrite (getpath_lookup_path _ _ _ Hname).
      destruct (getpath_hits_non_mapping _ _ Hk) as [msg ->]. eauto. }
  destruct Hparse as [msg Hparse].
  unfold result, calls, lambda_handler. rewrite Hparse. cbn. eauto.
Qed.

Lemma wrong_type_raises_TypeError_witness :
  (exists msg, result Sample.happy Sample.null_s3
               = Raise (Exn TypeError msg))
  /\ calls Sample.happy Sample.null_s3 = [].
Proof.
  apply (wrong_type_raises_TypeError Sample.happy
           [("Records", JList [Sample.null_s3_record])]
           Sample.null_s3_record []).
  - reflexivity.
  - left. reflexivity.
Defined.

(** X2.  When both subscript chains succeed but the object key is not a
    string, [key.lower()] raises an [AttributeError] outside any [try]
    block: it reaches the caller, and no collaborator is called. *)
Theorem non_string_key_raises_AttributeError (w : World)
    (event bucket key : json) :
  parse_event event = Ok (bucket, key) ->
  is_str key = false ->
  result w event
  = Raise (Exn AttributeError
             ("'" +:+ type_name key +:+ "' object has no attribute 'lower'"))
  /\ calls w event = [].
Proof.
  intros Hparse Hkey. unfold result, calls, lambda_handler. rewrite Hparse.
  destruct key; try discriminate Hkey; split; reflexivity.
Qed.

Lemma non_string_key_raises_AttributeError_witness :
  result Sample.happy Sample.numeric_key
  = Raise (Exn AttributeError "'int' object has no attribute 'lower'")
  /\ calls Sample.happy Sample.numeric_key = [].
Proof.
  apply (non_string_key_raises_AttributeError Sample.happy Sample.numeric_key
           (JStr "b") (JNum 7)); reflexivity.
Defined.

(** ** What the handler can return *)

(** On the processing path the only result ever returned is the success
    result. *)
Lemma handler_success_response (w : World) (event bucket : json)
    (key : string) (resp : Response) :
  parse_event event = Ok (bucket, JStr key) ->
  is_image_key key = true ->
  result w event = Ok resp ->
  resp = success_response key (new_key_of key).
Proof.
  intros Hparse Hkey Hres. unfold result in Hres.
  rewrite (handler_run w event bucket key Hparse Hkey) in Hres.
  pose proof (transform_and_upload_cases w bucket key) as Hcases.
  destruct (transform_and_upload w bucket key []) as [[dest|e] tr].
  - destruct Hcases as (_ & _ & db & _ & _ & -> & _).
    cbv zeta in Hres. revert Hres. repeat next_answer; cbn [fst snd];
      try (intros [= <-]; reflexivity);
      intros Hres;
      match type of Hres with
      | fst (report_failure ?w ?k ?e ?t) = _ =>
          destruct (report_failure_raises w k e t) as [e' He'];
          rewrite He' in Hres; discriminate Hres
      end.
  - destruct (report_failure_raises w key e tr) as [e' He'].
    rewrite He' in Hres. discriminate Hres.
Qed.

Lemma handler_non_string_key (w : World) (event bucket key : json) :
  parse_event event = Ok (bucket, key) ->
  is_str key = false ->
  lambda_handler w event []
  = (Raise (Exn AttributeError
              ("'" +:+ type_name key +:+ "' object has no attribute 'lower'")),
     []).
Proof.
  intros Hparse Hkey. unfold lambda_handler. rewrite Hparse.
  destruct key; try discriminate Hkey; reflexivity.
Qed.

(** X3.  A returned result is one of three: the 400 result, exactly when
    the first [try] block caught a [KeyError] or [IndexError]; the skip
    result, for a string key that is not an image key; or the success
    result for the parsed key and its derived destination key. *)
Theorem result_shapes (w : World) (event : json) (resp : Response) :
  result w event = Ok resp ->
  (resp = invalid_event_response
   /\ exists e, parse_event event = Raise e
                /\ is_KeyError_or_IndexError e = true)
  \/ (resp = skip_response
      /\ exists bucket key, parse_event event = Ok (bucket, JStr key)
                            /\ is_image_key key = false)
  \/ (exists bucket key,
        parse_event event = Ok (bucket, JStr key)
        /\ is_image_key key = true
        /\ resp = success_response key (new_key_of key)).
Proof.
  intros Hres.
  destruct (parse_event event) as [[bucket key]|e] eqn:Hparse.
  - destruct (is_str key) eqn:Hstr.
    + destruct key as [| | |key| |]; try discriminate Hstr.
      destruct (is_image_key key) eqn:Hkey.
      * right; right. exists bucket, key.
        split; [reflexivity|]. split; [exact Hkey|].
        exact (handler_success_response w event bucket key resp
                 Hparse Hkey Hres).
      * right; left. unfold result, lambda_handler in Hres.
        rewrite Hparse, Hkey in Hres. injection Hres as <-.
        split; [reflexivity|]. eauto.
    + unfold result in Hres.
      rewrite (handler_non_string_key w event bucket key Hparse Hstr) in Hres.
      discriminate Hres.
  - left. unfold result, lambda_handler in Hres. rewrite Hparse in Hres.
    destruct (is_KeyError_or_IndexError e) eqn:Hc; [|discriminate Hres].
    injection Hres as <-. split; [reflexivity|]. eauto.
Qed.

Lemma result_shapes_witness :
  exists bucket key,
    parse_event Sample.vacation = Ok (bucket, JStr key)
    /\ is_image_key key = true
    /\ success_response "photos/vacation.PNG" "thumbnails/photos/vacation.jpg"
       = success_response key (new_key_of key).
Proof.
  destruct (result_shapes Sample.happy Sample.vacation
              (success_response "photos/vacation.PNG"
                 "thumbnails/photos/vacation.jpg") eq_refl)
    as [[H _] | [[H _] | H]].
  - discriminate H.
  - discriminate H.
  - exact H.
Defined.

(** X4.  The handler returns the 400 result exactly when one of the two
    subscript chains raises a [KeyError] or an [IndexError]; every other
    event is skipped, processed, or makes the handler raise. *)
Theorem returns_400_iff (w : World) (event : json) :
  result w event
  = Ok {| statusCode := 400; body := "Invalid event structure" |}
  <-> exists e, parse_event event = Raise e
                /\ (exn_type e = KeyError \/ exn_type e = IndexError).
Proof.
  split.
  - intros Hres.
    destruct (parse_event event) as [[bucket key]|e] eqn:Hparse.
    + exfalso. destruct (is_str key) eqn:Hstr.
      * destruct key as [| | |key| |]; try discriminate Hstr.
        destruct (is_image_key key) eqn:Hkey.
        -- pose proof (handler_success_response w event bucket key _
                         Hparse Hkey Hres) as H.
           discriminate H.
        -- unfold result, lambda_handler in Hres.
           rewrite Hparse, Hkey in Hres. discriminate Hres.
      * unfold result in Hres.
        rewrite (handler_non_string_key w event bucket key Hparse Hstr)
          in Hres.
        discriminate Hres.
    + exists e. split; [reflexivity|].
      unfold result, lambda_handler in Hres. rewrite Hparse in Hres.
      unfold is_KeyError_or_IndexError in Hres.
      destruct (exn_type e); try discriminate Hres; auto.
  - intros (e & Hparse & Hc). unfold result, lambda_handler.
    rewrite Hparse. unfold is_KeyError_or_IndexError.
    destruct Hc as [-> | ->]; reflexivity.
Qed.

(** X5.  Only [Records[0]] is consulted: two events whose record lists
    begin with the same record get the same result and make the same calls,
    whatever follows in the list and whatever else the events hold. *)
Theorem only_first_record_matters (w : World) (d d' : list (string * json))
    (r : json) (rest rest' : list json) :
  assoc "Records" d = Some (JList (r :: rest)) ->
  assoc "Records" d' = Some (JList (r :: rest')) ->
  result w (JDict d) = result w (JDict d')
  /\ calls w (JDict d) = calls w (JDict d').
Proof.
  intros H H'. unfold result, calls, lambda_handler.
  rewrite (parse_event_first_record d r rest H),
    (parse_event_first_record d' r rest' H').
  split; reflexivity.
Qed.

Lemma only_first_record_matters_witness :
  result Sample.happy Sample.batch = result Sample.happy Sample.vacation
  /\ calls Sample.happy Sample.batch = calls Sample.happy Sample.vacation.
Proof.
  eapply (only_first_record_matters Sample.happy _ _ _ _ []); reflexivity.
Defined.

(** ** The extension filter and the destination key *)

Lemma lower_append (a b : string) :
  PyStr.lower (a +:+ b) = PyStr.lower a +:+ PyStr.lower b.
Proof.
  induction a as [|c a IH]; [reflexivity|].
  change (String c a +:+ b) with (String c (a +:+ b)).
  cbn [PyStr.lower]. now rewrite IH.
Qed.

(** X6.  The extension test ignores case: a key that ends in any
    upper/lower-case spelling of one of the five extensions is an image
    key, whatever comes before the extension. *)
Theorem extension_match_ignores_case (stem ext : string) :
  In (PyStr.lower ext) [".png"; ".jpg"; ".jpeg"; ".gif"; ".bmp"] ->
  is_image_key (stem +:+ ext) = true.
Proof.
  intros Hin. apply is_image_key_spec.
  exists (PyStr.lower ext), (PyStr.lower stem). split; [exact Hin|].
  apply lower_append.
Qed.

Lemma extension_match_ignores_case_witness :
  is_image_key ("Holiday/IMG_0001" +:+ ".JpEg") = true.
Proof.
  apply (extension_match_ignores_case "Holiday/IMG_0001" ".JpEg").
  simpl. auto.
Defined.

(** X7.  Every destination key is itself an image key: it starts with
    [thumbnails/], ends in [.jpg], and passes the handler's own extension
    filter.  An invocation triggered by a thumbnail would process it. *)
Theorem destination_key_is_image_key (key : string) :
  is_image_key (new_key_of key) = true
  /\ exists root, new_key_of key = "thumbnails/" +:+ root +:+ ".jpg".
Proof.
  split; [|exists (fst (OsPath.splitext key)); reflexivity].
  apply is_image_key_spec.
  exists ".jpg", (PyStr.lower ("thumbnails/" +:+ fst (OsPath.splitext key))).
  split; [simpl; auto|].
  unfold new_key_of.
  rewrite <- (append_assoc "thumbnails/" (fst (OsPath.splitext key)) ".jpg").
  apply lower_append.
Qed.

(** *** [splitext] puts the path back together *)

Lemma append_nil_r (s : string) : s +:+ "" = s.
Proof.
  induction s as [|c s IH]; [reflexivity|].
  change (String c (s +:+ "") = String c s). now rewrite IH.
Qed.

Lemma rfind_from_lower (s : string) (c : ascii) :
  forall i found, found < i -> found <= PyStr.rfind_from s c i found.
Proof.
  induction s as [|d s IH]; intros i found Hlt; simpl; [lia|].
  specialize (IH (i + 1) (if Ascii.eqb d c then i else found)).
  destruct (Ascii.eqb d c); lia.
Qed.

Lemma skip_leading_dots_some (p : string) (dotIndex : Z) (n : nat) :
  forall i r,
    OsPath.skip_leading_dots p dotIndex n i = Some r ->
    r = (PyStr.slice p 0 dotIndex, PyStr.slice p dotIndex (PyStr.len p)).
Proof.
  induction n as [|n IH]; intros i r H; simpl in H; [discriminate|].
  destruct (negb (String.eqb (PyStr.slice p i (i + 1)) ".")).
  - now injection H as <-.
  - exact (IH _ _ H).
Qed.

Lemma slice_join (p : string) (d : Z) :
  0 <= d <= PyStr.len p ->
  PyStr.slice p 0 d +:+ PyStr.slice p d (PyStr.len p) = p.
Proof.
  unfold PyStr.slice, PyStr.len. intros Hd.
  rewrite Z.sub_0_r. change (Z.to_nat 0) with 0%nat.
  replace (Z.to_nat (Z.of_nat (String.length p) - d))
    with (String.length p - Z.to_nat d)%nat by lia.
  symmetry. apply substring_split. lia.
Qed.

Lemma slice_empty (p : string) : PyStr.slice p 0 0 = "".
Proof. unfold PyStr.slice. now destruct p. Qed.

(** The two cases of [splitext]: nothing is split off, or the path is cut
    at its last dot, which lies after the last slash. *)
Lemma splitext_cases (p : string) :
  OsPath.splitext p = (p, "")
  \/ (OsPath.splitext p
      = (PyStr.slice p 0 (PyStr.rfind p "."),
         PyStr.slice p (PyStr.rfind p ".") (PyStr.len p))
      /\ 0 <= PyStr.rfind p "." < PyStr.len p).
Proof.
  unfold OsPath.splitext. rewrite slice_empty.
  destruct (Z.ltb_spec (PyStr.rfind p "/") (PyStr.rfind p ".")) as [Hlt|];
    [|now left].
  cbv zeta.
  destruct (OsPath.skip_leading_dots p (PyStr.rfind p ".")
              (Z.to_nat (PyStr.rfind p "." - (PyStr.rfind p "/" + 1)))
              (PyStr.rfind p "/" + 1)) as [r|] eqn:E; [|now left].
  right. rewrite (skip_leading_dots_some _ _ _ _ _ E). split; [reflexivity|].
  pose proof (rfind_from_lower p "/" 0 (-1) ltac:(lia)).
  pose proof (rfind_from_bound p "." 0 (-1) ltac:(lia)).
  unfold PyStr.rfind in *. lia.
Qed.

(** X8.  [splitext] loses nothing: root and extension concatenate to the
    key, so the destination key keeps every character of the source key
    that comes before the extension. *)
Theorem splitext_join (key : string) :
  fst (OsPath.splitext key) +:+ snd (OsPath.splitext key) = key.
Proof.
  destruct (splitext_cases key) as [-> | [-> Hd]]; cbn [fst snd].
  - apply append_nil_r.
  - apply slice_join. lia.
Qed.

(** *** Ordinary file names, and names that are all extension *)

(** X9.  For a key [<dir><name>.<ext>] whose file name has a character
    that is neither a dot nor a slash, with no dot or slash in the
    extension, the destination key is [thumbnails/<dir><name>.jpg]: the
    directory part is kept, only the last extension is replaced. *)
Theorem new_key_replaces_extension (dir name ext : string) (d : ascii) :
  occurs "/" name = false ->
  d <> "."%char -> d <> "/"%char ->
  occurs "." ext = false -> occurs "/" ext = false ->
  new_key_of ((dir +:+ String d name) +:+ String "." ext)
  = "thumbnails/" +:+ (dir +:+ String d name) +:+ ".jpg".
Proof.
  intros Hname Hd Hd' Hdot Hsep. unfold new_key_of.
  now rewrite (splitext_strips dir name ext d Hname Hd Hd' Hdot Hsep).
Qed.

Lemma new_key_replaces_extension_witness :
  new_key_of (("2024/07/" +:+ "beach.final") +:+ ".png")
  = "thumbnails/2024/07/beach.final.jpg".
Proof.
  apply (new_key_replaces_extension "2024/07/" "each.final" "png" "b");
    solve [reflexivity | discriminate].
Defined.

(** X10.  Source keys that differ only in their extension get the same
    destination key: the thumbnail of [<name>.png] and the thumbnail of
    [<name>.gif] are written to one object. *)
Theorem same_stem_same_destination (dir name ext1 ext2 : string) (d : ascii) :
  occurs "/" name = false ->
  d <> "."%char -> d <> "/"%char ->
  occurs "." ext1 = false -> occurs "/" ext1 = false ->
  occurs "." ext2 = false -> occurs "/" ext2 = false ->
  new_key_of ((dir +:+ String d name) +:+ String "." ext1)
  = new_key_of ((dir +:+ String d name) +:+ String "." ext2).
Proof.
  intros Hname Hd Hd' Hdot1 Hsep1 Hdot2 Hsep2. unfold new_key_of.
  now rewrite (splitext_strips dir name ext1 d Hname Hd Hd' Hdot1 Hsep1),
    (splitext_strips dir name ext2 d Hname Hd Hd' Hdot2 Hsep2).
Qed.

Lemma same_stem_same_destination_witness :
  new_key_of (("img/" +:+ "logo") +:+ ".png")
  = new_key_of (("img/" +:+ "logo") +:+ ".gif").
Proof.
  apply (same_stem_same_destination "img/" "ogo" "png" "gif" "l");
    solve [reflexivity | discriminate].
Defined.

Lemma all_dots_no_slash (dots : string) :
  all_dots dots = true -> occurs "/" dots = false.
Proof.
  induction dots as [|c dots IH]; [reflexivity|]. simpl.
  intros H. apply andb_true_iff in H as [Hc Hd].
  apply Ascii.eqb_eq in Hc as ->. now rewrite IH.
Qed.

Lemma len_append (a b : string) :
  PyStr.len (a +:+ b) = PyStr.len a + PyStr.len b.
Proof. unfold PyStr.len. rewrite length_append. lia. Qed.

(** The loop falls through when it sees dots only. *)
Lemma skip_leading_dots_none (dots rest : string) (dotIndex : Z) :
  all_dots dots = true ->
  forall pre,
    OsPath.skip_leading_dots (pre +:+ dots +:+ rest) dotIndex
      (String.length dots) (PyStr.len pre) = None.
Proof.
  induction dots as [|c dots IH]; intros Hdots pre; [reflexivity|].
  simpl in Hdots. apply andb_true_iff in Hdots as [Hc Hdots].
  apply Ascii.eqb_eq in Hc as ->.
  cbn [String.length OsPath.skip_leading_dots].
  change (String "." dots +:+ rest) with (String "." (dots +:+ rest)).
  rewrite slice_char. cbn [String.eqb Ascii.eqb Bool.eqb negb andb].
  specialize (IH Hdots (pre +:+ ".")).
  rewrite append_assoc, len_append in IH. exact IH.
Qed.

(** X11.  When the file name is nothing but dots followed by the
    extension (as in [.png] or [dir/.png]), [splitext] sees no extension:
    nothing is stripped, and the destination key is the whole source key
    with [.jpg] appended. *)
Theorem new_key_of_dot_file (dir dots ext : string) :
  dir = "" \/ (exists parent, dir = parent +:+ "/") ->
  all_dots dots = true ->
  occurs "." ext = false -> occurs "/" ext = false ->
  let key := dir +:+ dots +:+ String "." ext in
  OsPath.splitext key = (key, "")
  /\ new_key_of key = "thumbnails/" +:+ key +:+ ".jpg".
Proof.
  intros Hdir Hdots Hdot Hsep key.
  assert (Hsplit : OsPath.splitext key = (key, "")).
  { unfold OsPath.splitext, PyStr.rfind. rewrite slice_empty.
    assert (Hdotidx : PyStr.rfind_from key "." 0 (-1)
                      = PyStr.len dir + PyStr.len dots).
    { unfold key. rewrite <- append_assoc, rfind_from_app.
      cbn [PyStr.rfind_from Ascii.eqb Bool.eqb].
      rewrite (rfind_from_absent ext) by assumption.
      rewrite len_append. lia. }
    assert (Hsepidx : PyStr.rfind_from key "/" 0 (-1) = PyStr.len dir - 1).
    { unfold key. rewrite rfind_from_app, rfind_from_app.
      cbn [PyStr.rfind_from Ascii.eqb Bool.eqb].
      rewrite (rfind_from_absent ext) by assumption.
      rewrite (rfind_from_absent dots) by now apply all_dots_no_slash.
      destruct Hdir as [-> | [parent ->]]; [reflexivity|].
      rewrite rfind_from_app, len_append.
      cbn [PyStr.rfind_from Ascii.eqb Bool.eqb]. unfold PyStr.len. simpl.
      lia. }
    rewrite Hdotidx, Hsepidx.
    assert (0 <= PyStr.len dots) by (unfold PyStr.len; lia).
    destruct (Z.ltb_spec (PyStr.len dir - 1) (PyStr.len dir + PyStr.len dots));
      [|lia].
    cbv zeta.
    replace (Z.to_nat (PyStr.len dir + PyStr.len dots
                       - (PyStr.len dir - 1 + 1)))
      with (String.length dots) by (unfold PyStr.len; lia).
    replace (PyStr.len dir - 1 + 1) with (PyStr.len dir) by lia.
    unfold key. now rewrite skip_leading_dots_none. }
  split; [exact Hsplit|]. unfold new_key_of. now rewrite Hsplit.
Qed.

Lemma new_key_of_dot_file_witness :
  OsPath.splitext ("dir/" +:+ "" +:+ ".png") = ("dir/.png", "")
  /\ new_key_of ("dir/" +:+ "" +:+ ".png") = "thumbnails/dir/.png.jpg".
Proof.
  apply (new_key_of_dot_file "dir/" "" "png").
  - right. exists "dir". reflexivity.
  - reflexivity.
  - reflexivity.
  - reflexivity.
Defined.

(** *** The destination key is never the source key *)

Lemma rfind_from_occurs (s : string) (c : ascii) :
  occurs c s = true ->
  forall i found, i <= PyStr.rfind_from s c i found.
Proof.
  induction s as [|d s IH]; intros Hocc i found; [discriminate|].
  simpl in *. destruct (occurs c s) eqn:Hs.
  - specialize (IH eq_refl (i + 1) (if Ascii.eqb d c then i else found)).
    lia.
  - rewrite orb_false_r in Hocc. rewrite Hocc.
    rewrite rfind_from_absent by assumption. lia.
Qed.

(** [rfind] points at the last occurrence: nothing after it is [c]. *)
Lemma rfind_from_decompose (s : string) (c : ascii) :
  forall i found,
    found < i ->
    i <= PyStr.rfind_from s c i found ->
    exists a e,
      s = a +:+ String c e
      /\ PyStr.len a = PyStr.rfind_from s c i found - i
      /\ occurs c e = false.
Proof.
  induction s as [|d s IH]; intros i found Hlt Hge; simpl in *; [lia|].
  destruct (occurs c s) eqn:Hs.
  - pose proof (rfind_from_occurs s c Hs (i + 1)
                  (if Ascii.eqb d c then i else found)) as Hge'.
    destruct (IH (i + 1) (if Ascii.eqb d c then i else found))
      as (a & e & -> & Hlen & He);
      [destruct (Ascii.eqb d c); lia | exact Hge' |].
    exists (String d a), e. repeat split; [|exact He].
    unfold PyStr.len in *. cbn [String.length]. lia.
  - rewrite rfind_from_absent in * by assumption.
    destruct (Ascii.eqb d c) eqn:Hd; [|lia].
    apply Ascii.eqb_eq in Hd as ->.
    exists "", s. repeat split; [|exact Hs].
    unfold PyStr.len. simpl. lia.
Qed.

Lemma occurs_append (c : ascii) (a b : string) :
  occurs c (a +:+ b) = occurs c a || occurs c b.
Proof.
  induction a as [|d a IH]; [reflexivity|].
  change (String d a +:+ b) with (String d (a +:+ b)).
  cbn [occurs]. now rewrite IH, orb_assoc.
Qed.

(** The extension [splitext] answers is empty, or a dot followed by
    characters none of which is a dot. *)
Lemma splitext_extension (p : string) :
  snd (OsPath.splitext p) = ""
  \/ exists e, snd (OsPath.splitext p) = String "." e
               /\ occurs "." e = false.
Proof.
  destruct (splitext_cases p) as [-> | [-> Hd]]; cbn [snd]; [now left|].
  right. unfold PyStr.rfind in *.
  destruct (rfind_from_decompose p "." 0 (-1) ltac:(lia) ltac:(lia))
    as (a & e & Hp & Hlen & He).
  exists e. split; [|exact He].
  rewrite Z.sub_0_r in Hlen. rewrite <- Hlen.
  rewrite Hp at 1 2. apply slice_suffix.
Qed.

(** Two ways of writing one string as a concatenation: the shorter tail is
    a tail of the longer one. *)
Lemma append_eq_tail (b : string) :
  forall a s t,
    a +:+ s = b +:+ t ->
    (String.length s <= String.length t)%nat ->
    exists x, t = x +:+ s.
Proof.
  induction b as [|c b IH]; intros a s t Heq Hlen.
  - exists a. now rewrite Heq.
  - destruct a as [|c' a].
    + exfalso. apply (f_equal String.length) in Heq.
      rewrite !length_append in Heq. simpl in Heq. lia.
    + change (String c' (a +:+ s) = String c (b +:+ t)) in Heq.
      injection Heq as _ Heq. exact (IH a s t Heq Hlen).
Qed.

(** X12.  The destination key is never equal to the source key, for any
    key at all: even when the destination bucket is the source bucket, the
    upload does not overwrite the object that was read. *)
Theorem destination_key_differs (key : string) : new_key_of key <> key.
Proof.
  intros Heq. unfold new_key_of in Heq.
  assert (Hjoin : fst (OsPath.splitext key) +:+ snd (OsPath.splitext key)
                  = key).
  { destruct (splitext_cases key) as [-> | [-> Hd]]; cbn [fst snd];
      [apply append_nil_r | apply slice_join; lia]. }
  pose proof (splitext_extension key) as Hext.
  remember (fst (OsPath.splitext key)) as root eqn:Hroot.
  remember (snd (OsPath.splitext key)) as ext eqn:Hextdef.
  clear Hroot Hextdef. rewrite <- Hjoin in Heq. clear Hjoin key.
  rewrite <- (append_assoc "thumbnails/" root ".jpg") in Heq.
  assert (Hlen : String.length ext = 15%nat).
  { apply (f_equal String.length) in Heq.
    rewrite !length_append in Heq. simpl in Heq. lia. }
  destruct (append_eq_tail root ("thumbnails/" +:+ root) ".jpg" ext Heq)
    as [x Hx]; [rewrite Hlen; simpl; lia|].
  destruct Hext as [He | (e & He & Hdot)];
    rewrite He in *; [discriminate Hlen|].
  destruct x as [|c x].
  - apply (f_equal String.length) in Hx. simpl in Hx, Hlen. lia.
  - change (String "." e = String c (x +:+ ".jpg")) in Hx.
    injection Hx as _ ->.
    rewrite occurs_append in Hdot. apply orb_false_iff in Hdot as [_ Hdot].
    discriminate Hdot.
Qed.

(** ** Notifications on the success path and on a silent failure *)

Lemma notifications_enabled_lower (w : World) (v : string) :
  environ w !! "SEND_NOTIFICATIONS" = Some v ->
  PyStr.lower v = "true" ->
  notifications_enabled w = true.
Proof.
  intros H Hv. unfold notifications_enabled, environ_get.
  rewrite H, Hv. reflexivity.
Qed.

(** X13.  With [SEND_NOTIFICATIONS] set to any spelling of ['true'] and
    [SNS_TOPIC_ARN] set: when fetch, transform and upload succeed and the
    publish returns, the handler makes exactly one publish call, with
    subject ['Image Processing Successful'] and a message naming the source
    key, the destination bucket the upload used and the destination key,
    after every other call, and returns the success result. *)
Theorem success_notified (w : World) (event bucket : json)
    (key v topic destination_bucket : string) (tr : list call) :
  parse_event event = Ok (bucket, JStr key) ->
  is_image_key key = true ->
  environ w !! "SEND_NOTIFICATIONS" = Some v ->
  PyStr.lower v = "true" ->
  environ w !! "SNS_TOPIC_ARN" = Some topic ->
  let new_key := "thumbnails/" +:+ fst (OsPath.splitext key) +:+ ".jpg" in
  let req := {| TopicArn := topic;
                Subject := "Image Processing Successful";
                Message := "Image " +:+ key +:+
                           " was successfully processed and saved to " +:+
                           destination_bucket +:+ "/" +:+ new_key |} in
  transform_and_upload w bucket key [] = (Ok (destination_bucket, new_key), tr) ->
  sns_publish w req = Ok tt ->
  calls w event = tr ++ [Publish req]
  /\ publishes (calls w event) = [req]
  /\ result w event = Ok (success_response key new_key).
Proof.
  intros Hparse Hkey Hsend Hv Htopic new_key req Hrun Hpub.
  unfold calls, result.
  rewrite (handler_run w event bucket key Hparse Hkey), Hrun,
    (notifications_enabled_lower w v Hsend Hv), Htopic.
  cbv zeta. cbn [fst snd].
  change (success_publish topic key destination_bucket new_key) with req.
  rewrite Hpub. cbn [fst snd].
  rewrite publishes_app,
    (transform_and_upload_no_publish w bucket key _ tr Hrun).
  repeat split; reflexivity.
Qed.

Lemma success_notified_witness :
  publishes (calls Sample.happy Sample.vacation)
  = [{| TopicArn := "arn:aws:sns:topic";
        Subject := "Image Processing Successful";
        Message := "Image photos/vacation.PNG was successfully processed and saved to thumbs/thumbnails/photos/vacation.jpg" |}]
  /\ result Sample.happy Sample.vacation
     = Ok (success_response "photos/vacation.PNG"
             "thumbnails/photos/vacation.jpg").
Proof.
  destruct (success_notified Sample.happy Sample.vacation (JStr "uploads")
              "photos/vacation.PNG" "true" "arn:aws:sns:topic" "thumbs"
              (snd (transform_and_upload Sample.happy (JStr "uploads")
                      "photos/vacation.PNG" []))
              eq_refl eq_refl eq_refl eq_refl eq_refl eq_refl eq_refl)
    as (_ & Hp & Hr).
  split; [exact Hp | exact Hr].
Defined.



(** X15.  With notifications enabled but [SNS_TOPIC_ARN] unset, every
    invocation on a well-formed image-key event raises
    [KeyError('SNS_TOPIC_ARN')] and publishes nothing, whether processing
    failed or the thumbnail was uploaded; the calls are those made from
    fetch to upload. *)
Theorem missing_topic_always_raises (w : World) (event bucket : json)
    (key v : string) :
  parse_event event = Ok (bucket, JStr key) ->
  is_image_key key = true ->
  environ w !! "SEND_NOTIFICATIONS" = Some v ->
  PyStr.lower v = "true" ->
  environ w !! "SNS_TOPIC_ARN" = None ->
  result w event = Raise (Exn KeyError "'SNS_TOPIC_ARN'")
  /\ publishes (calls w event) = []
  /\ calls w event = snd (transform_and_upload w bucket key []).
Proof.
  intros Hparse Hkey Hsend Hv Htopic. unfold result, calls.
  rewrite (handler_run w event bucket key Hparse Hkey),
    (notifications_enabled_lower w v Hsend Hv), Htopic.
  destruct (transform_and_upload w bucket key []) as [[dest|e] tr] eqn:Hrun;
    rewrite report_failure_run,
      (notifications_enabled_lower w v Hsend Hv), Htopic; cbn [fst snd];
    rewrite (transform_and_upload_no_publish w bucket key _ tr Hrun);
    repeat split; reflexivity.
Qed.

Lemma missing_topic_always_raises_witness :
  result Sample.no_topic Sample.vacation
  = Raise (Exn KeyError "'SNS_TOPIC_ARN'")
  /\ publishes (calls Sample.no_topic Sample.vacation) = []
  /\ length (puts (calls Sample.no_topic Sample.vacation)) = 1%nat.
Proof.
  destruct (missing_topic_always_raises Sample.no_topic Sample.vacation
              (JStr "uploads") "photos/vacation.PNG" "True"
              eq_refl eq_refl eq_refl eq_refl eq_refl) as (Hr & Hp & _).
  split; [exact Hr|]. split; [exact Hp | reflexivity].
Defined.

(** ** The order of the calls *)

Ltac build_lists :=
  repeat match goal with
         | |- StronglySorted _ _ => constructor
         | |- Forall _ _ => constructor
         end.

Ltac sorted_calls := build_lists; unfold call_before; cbn [phase]; lia.

(** The calls of fetch and transform: in pipeline order, all before the
    upload, and the only fetch is that of the given bucket and key. *)
Lemma fetch_and_transform_order (w : World) (bucket : json) (key : string)
    (r : outcome bytes) (tr : list call) :
  fetch_and_transform w bucket key [] = (r, tr) ->
  StronglySorted call_before tr
  /\ Forall (fun c => (phase c <= 4)%nat) tr
  /\ (forall b k, In (GetObject b k) tr -> b = bucket /\ k = key).
Proof.
  unfold fetch_and_transform, bind, invoke, ret, raise.
  repeat (cbn; next_answer); cbn; intros [= <- <-];
    (split; [sorted_calls|]);
    (split; [build_lists; cbn [phase]; lia|]);
    intros b k Hin; cbn [In] in Hin;
    repeat (destruct Hin as [Hin|Hin]; try discriminate Hin);
    try contradiction; injection Hin as <- <-; split; reflexivity.
Qed.

(** What follows the transform: at most one upload, then at most two
    notifications. *)
Lemma handler_calls_tail (w : World) (event bucket : json) (key : string) :
  parse_event event = Ok (bucket, JStr key) ->
  is_image_key key = true ->
  exists rest,
    calls w event = snd (fetch_and_transform w bucket key []) ++ rest
    /\ StronglySorted call_before rest
    /\ Forall (fun c => (5 <= phase c)%nat) rest
    /\ (length (publishes rest) <= 2)%nat.
Proof.
  intros Hparse Hkey. unfold calls.
  rewrite (handler_run w event bucket key Hparse Hkey).
  rewrite transform_and_upload_run.
  destruct (fetch_and_transform w bucket key []) as [[b|e] tr1]; cbn [snd].
  - rewrite upload_run. cbv zeta.
    repeat (rewrite ?report_failure_run; next_answer); cbn [snd];
      rewrite <- ?app_assoc;
      first [ eexists; split; [reflexivity|]
            | exists []; split; [now rewrite app_nil_r|] ];
      (split; [sorted_calls|]);
      (split; [build_lists; cbn [phase]; lia | cbn; lia]).
  - rewrite report_failure_run.
    repeat next_answer; cbn [snd];
      first [ eexists; split; [reflexivity|]
            | exists []; split; [now rewrite app_nil_r|] ];
      (split; [sorted_calls|]);
      (split; [build_lists; cbn [phase]; lia | cbn; lia]).
Qed.

Lemma sorted_app_phases (l1 l2 : list call) :
  StronglySorted call_before l1 ->
  StronglySorted call_before l2 ->
  Forall (fun c => (phase c <= 4)%nat) l1 ->
  Forall (fun c => (5 <= phase c)%nat) l2 ->
  StronglySorted call_before (l1 ++ l2).
Proof.
  intros H1 H2 Hlo Hhi. induction H1 as [|c l1 Hs IH Hall]; [exact H2|].
  inversion Hlo as [|? ? Hc Hlo']; subst.
  cbn [app]. constructor; [now apply IH|].
  apply Forall_app. split; [exact Hall|].
  eapply Forall_impl; [exact Hhi|].
  intros c' Hc'. left. cbv beta in Hc'. lia.
Qed.

(** X16.  In every invocation the calls follow the pipeline: fetch, open,
    thumbnail, convert, save, upload, then notifications.  A call of an
    earlier phase never comes after one of a later phase and no phase
    before the notifications is entered twice, so nothing is retried; at
    most two publish calls are made; and a fetch is only ever made for the
    bucket and key the event's first record names. *)
Theorem calls_follow_pipeline (w : World) (event : json) :
  StronglySorted call_before (calls w event)
  /\ (length (publishes (calls w event)) <= 2)%nat
  /\ (forall bucket key,
        In (GetObject bucket key) (calls w event) ->
        parse_event event = Ok (bucket, JStr key)).
Proof.
  assert (Hnone : calls w event = [] ->
            StronglySorted call_before (calls w event)
            /\ (length (publishes (calls w event)) <= 2)%nat
            /\ (forall bucket key,
                  In (GetObject bucket key) (calls w event) ->
                  parse_event event = Ok (bucket, JStr key))).
  { intros ->. split; [constructor|]. split; [cbn; lia|]. intros b k []. }
  destruct (parse_event event) as [[bucket key]|e] eqn:Hparse.
  - destruct (is_str key) eqn:Hstr.
    + destruct key as [| | |key| |]; try discriminate Hstr.
      destruct (is_image_key key) eqn:Hkey.
      * destruct (handler_calls_tail w event bucket key Hparse Hkey)
          as (rest & -> & Hsorted & Hhi & Hpub).
        destruct (fetch_and_transform w bucket key []) as [r tr] eqn:E.
        destruct (fetch_and_transform_order w bucket key r tr E)
          as (Hs & Hlo & Hget).
        destruct (fetch_and_transform_quiet w bucket key r tr E)
          as [_ Hq].
        cbn [snd]. split; [now apply sorted_app_phases|].
        split; [rewrite publishes_app, Hq; exact Hpub|].
        intros b k Hin. apply in_app_or in Hin as [Hin|Hin].
        -- destruct (Hget b k Hin) as [-> ->]. reflexivity.
        -- exfalso.
           pose proof (proj1 (List.Forall_forall _ _) Hhi _ Hin) as Hph.
           cbn in Hph. lia.
      * apply Hnone. unfold calls, lambda_handler.
        now rewrite Hparse, Hkey.
    + apply Hnone. unfold calls.
      now rewrite (handler_non_string_key w event bucket key Hparse Hstr).
  - apply Hnone. unfold calls, lambda_handler. rewrite Hparse.
    now destruct (is_KeyError_or_IndexError e).
Qed.

(** * The upload after the encode, the resize, and repeated invocations *)

(** ** What follows a completed transform *)

(** After fetch and transform the handler uploads, if they succeeded and
    the destination bucket is configured, and then only notifies. *)
Lemma handler_after_transform (w : World) (event bucket : json)
    (key : string) (r : outcome bytes) (tr1 : list call) :
  parse_event event = Ok (bucket, JStr key) ->
  is_image_key key = true ->
  fetch_and_transform w bucket key [] = (r, tr1) ->
  exists rest,
    calls w event = tr1 ++ rest
    /\ forallb is_upload_or_publish rest = true
    /\ (forall e, r = Raise e -> puts rest = [])
    /\ (forall body,
          r = Ok body -> environ w !! "DESTINATION_BUCKET" = None ->
          puts rest = [])
    /\ (forall body db,
          r = Ok body -> environ w !! "DESTINATION_BUCKET" = Some db ->
          exists rest',
            rest = PutObject {| Bucket := db; Key := new_key_of key;
                                Body := body; ContentType := "image/jpeg";
                                StorageClass := "STANDARD_IA" |} :: rest'
            /\ puts rest' = []).
Proof.
  intros Hparse Hkey E. unfold calls.
  rewrite (handler_run w event bucket key Hparse Hkey).
  rewrite transform_and_upload_run, E.
  destruct r as [b|e].
  - rewrite upload_run. cbv zeta.
    destruct (environ w !! "DESTINATION_BUCKET") as [db|] eqn:Hdb.
    + repeat (rewrite ?report_failure_run; next_answer); cbn [snd];
        rewrite <- ?app_assoc;
        (eexists; split; [reflexivity|]);
        (split; [reflexivity|]);
        (split; [intros e' [=]|]);
        (split; [intros body' _ [=]|]);
        intros body' db' [= <-] [= <-];
        (eexists; split; [reflexivity | reflexivity]).
    + repeat (rewrite ?report_failure_run; next_answer); cbn [snd];
        first [ eexists; split; [reflexivity|]
              | exists []; split; [now rewrite app_nil_r|] ];
        (split; [reflexivity|]);
        (split; [intros e' [=]|]);
        (split; [intros body' _ _; reflexivity|]);
        intros body' db' _ [=].
  - rewrite report_failure_run.
    repeat next_answer; cbn [snd];
      first [ eexists; split; [reflexivity|]
            | exists []; split; [now rewrite app_nil_r|] ];
      (split; [reflexivity|]);
      (split; [intros e' _; reflexivity|]);
      (split; [intros body' [=]|]);
      intros body' db' [=].
Qed.

(** C6.  For a well-formed event with an image key whose object is
    fetched, decoded and resized: if the source format is not JPEG the
    image is converted to RGB and the converted image is saved as JPEG; if
    it is JPEG there is no conversion and the image is saved in that same
    format; the save always has [optimize=True] and [quality=85].  When the
    save answers bytes and [DESTINATION_BUCKET] is set, the next call is the
    upload of exactly those bytes, with [ContentType] ['image/jpeg'] and
    [StorageClass] ['STANDARD_IA'], and it is the only upload; every upload
    of an invocation has these attributes and carries saved bytes. *)
Theorem reencode_and_upload_settings (w : World) (event bucket : json)
    (key : string) (content : bytes) (opened : Image) (r : Raster) :
  parse_event event = Ok (bucket, JStr key) ->
  is_image_key key = true ->
  s3_get_object w bucket key = Ok content ->
  pil_open w content = Ok opened ->
  pil_thumbnail w opened (150, 150) = Ok r ->
  let image := {| format := format opened; raster := r |} in
  let fetched := [GetObject bucket key; ImageOpen content;
                  Thumbnail opened (150, 150)] in
  let then_uploaded (saved : Image) (rest : list call) : Prop :=
    forallb is_upload_or_publish rest = true
    /\ forall body db,
         pil_save w saved "JPEG" true 85 = Ok body ->
         environ w !! "DESTINATION_BUCKET" = Some db ->
         exists rest',
           rest = PutObject
                    {| Bucket := db;
                       Key := "thumbnails/" +:+ fst (OsPath.splitext key)
                              +:+ ".jpg";
                       Body := body;
                       ContentType := "image/jpeg";
                       StorageClass := "STANDARD_IA" |} :: rest'
           /\ puts rest' = [] in
  (format opened <> Some "JPEG" ->
   exists rest,
     calls w event = fetched ++ Convert image "RGB" :: rest
     /\ forall image',
          pil_convert w image "RGB" = Ok image' ->
          exists rest',
            rest = Save image' "JPEG" true 85 :: rest'
            /\ then_uploaded image' rest')
  /\ (format opened = Some "JPEG" ->
      exists rest',
        calls w event = fetched ++ Save image "JPEG" true 85 :: rest'
        /\ then_uploaded image rest')
  /\ (forall req,
        In req (puts (calls w event)) ->
        ContentType req = "image/jpeg"
        /\ StorageClass req = "STANDARD_IA"
        /\ exists saved,
             In (Save saved "JPEG" true 85) (calls w event)
             /\ pil_save w saved "JPEG" true 85 = Ok (Body req)).
Proof.
  intros Hparse Hkey Hget Hopen Hthumb image fetched then_uploaded.
  pose proof (fetch_and_transform_decoded w bucket key content opened r
                Hget Hopen Hthumb) as Hft.
  cbv zeta in Hft. fold image fetched in Hft.
  split; [|split].
  - intros Hfmt. rewrite decide_False in Hft by exact Hfmt.
    destruct (pil_convert w image "RGB") as [image'|e] eqn:Hconv.
    + destruct (handler_after_transform w event bucket key _ _
                  Hparse Hkey Hft) as (rest & Hcalls & Hrest & _ & _ & Hup).
      exists (Save image' "JPEG" true 85 :: rest). split.
      * rewrite Hcalls, <- app_assoc. reflexivity.
      * intros image'' [= <-]. exists rest. split; [reflexivity|].
        split; [exact Hrest|]. intros body db Hsave Hdb.
        exact (Hup body db Hsave Hdb).
    + destruct (handler_after_transform w event bucket key _ _
                  Hparse Hkey Hft) as (rest & Hcalls & _).
      exists rest. split.
      * rewrite Hcalls, <- app_assoc. reflexivity.
      * intros image' [=].
  - intros Hfmt. rewrite decide_True in Hft by exact Hfmt.
    destruct (handler_after_transform w event bucket key _ _
                Hparse Hkey Hft) as (rest & Hcalls & Hrest & _ & _ & Hup).
    exists rest. split.
    + rewrite Hcalls, <- app_assoc. reflexivity.
    + split; [exact Hrest|]. intros body db Hsave Hdb.
      exact (Hup body db Hsave Hdb).
  - intros req Hin.
    destruct (handler_calls_after_transform w event bucket key Hparse Hkey)
      as (rest & Hcalls & _).
    rewrite (handler_puts w event bucket key Hparse Hkey) in Hin.
    pose proof (transform_and_upload_cases w bucket key) as Hcases.
    assert (Hsaved : forall in_mem_file tr1,
               fetch_and_transform w bucket key [] = (Ok in_mem_file, tr1) ->
               exists saved,
                 In (Save saved "JPEG" true 85) (calls w event)
                 /\ pil_save w saved "JPEG" true 85 = Ok in_mem_file).
    { intros b tr1 E.
      destruct (fetch_and_transform_saved w bucket key b tr1 E)
        as (saved & Hin' & Hsave).
      exists saved. split; [|exact Hsave].
      rewrite Hcalls, E. cbn [snd]. apply in_or_app. now left. }
    destruct (transform_and_upload w bucket key []) as [[dest|e] tr];
      cbn [snd] in Hin.
    + destruct Hcases as (b & tr1 & db & E & _ & _ & _ & _ & Hp).
      rewrite Hp in Hin. destruct Hin as [<-|[]].
      repeat split. exact (Hsaved b tr1 E).
    + destruct Hcases as [[_ Hp] | [(b & _ & _ & _ & Hp)
                                   | (b & tr1 & db & E & _ & _ & _ & Hp)]];
        rewrite Hp in Hin;
        [destruct Hin | destruct Hin | destruct Hin as [<-|[]]].
      repeat split. exact (Hsaved b tr1 E).
Qed.

Lemma reencode_and_upload_settings_witness :
  exists rest',
    calls Sample.happy Sample.vacation
    = [GetObject (JStr "uploads") "photos/vacation.PNG";
       ImageOpen [Byte.x89; Byte.x50];
       Thumbnail
         {| format := Some "PNG";
            raster := {| mode := "RGBA"; width := 800; height := 600;
                         pixels := [Byte.x89; Byte.x50] |} |} (150, 150);
       Convert
         {| format := Some "PNG";
            raster := {| mode := "RGBA"; width := 150; height := 113;
                         pixels := [Byte.x89; Byte.x50] |} |} "RGB";
       Save
         {| format := None;
            raster := {| mode := "RGB"; width := 150; height := 113;
                         pixels := [Byte.x89; Byte.x50] |} |} "JPEG" true 85;
       PutObject
         {| Bucket := "thumbs"; Key := "thumbnails/photos/vacation.jpg";
            Body := [Byte.xff; Byte.xd8; Byte.x89; Byte.x50];
            ContentType := "image/jpeg"; StorageClass := "STANDARD_IA" |}]
      ++ rest'
    /\ puts rest' = [].
Proof.
  destruct (reencode_and_upload_settings Sample.happy Sample.vacation
              (JStr "uploads") "photos/vacation.PNG" [Byte.x89; Byte.x50]
              {| format := Some "PNG";
                 raster := {| mode := "RGBA"; width := 800; height := 600;
                              pixels := [Byte.x89; Byte.x50] |} |}
              {| mode := "RGBA"; width := 150; height := 113;
                 pixels := [Byte.x89; Byte.x50] |}
              eq_refl eq_refl eq_refl eq_refl eq_refl)
    as (Hpng & _ & _).
  destruct Hpng as (rest & Hcalls & Hsave); [discriminate|].
  destruct (Hsave _ eq_refl) as (rest1 & -> & _ & Hup).
  destruct (Hup _ "thumbs" eq_refl eq_refl) as (rest2 & -> & Hputs).
  exists rest2. split; [exact Hcalls | exact Hputs].
Defined.

(** ** The resize *)

Lemma round_half_up_bounds (n d : Z) :
  0 < d ->
  2 * d * round_half_up n d <= 2 * n + d < 2 * d * round_half_up n d + 2 * d.
Proof.
  intros Hd. unfold round_half_up.
  pose proof (Z.div_mod (2 * n + d) (2 * d) ltac:(lia)) as Hdm.
  pose proof (Z.mod_pos_bound (2 * n + d) (2 * d) ltac:(lia)) as Hm.
  lia.
Qed.

(** The handler asks for thumbnails of bound 150x150 only. *)
Lemma fetch_and_transform_bound (w : World) (bucket : json) (key : string)
    (r : outcome bytes) (tr : list call) (image : Image) (size : Z * Z) :
  fetch_and_transform w bucket key [] = (r, tr) ->
  In (Thumbnail image size) tr ->
  size = (150, 150).
Proof.
  unfold fetch_and_transform, bind, invoke, ret, raise.
  repeat (cbn; next_answer); cbn; intros [= <- <-] Hin; cbn [In] in Hin;
    repeat (destruct Hin as [Hin|Hin]; try discriminate Hin);
    try contradiction; now injection Hin as _ <-.
Qed.

Lemma thumbnail_call_bound (w : World) (event : json) (image : Image)
    (size : Z * Z) :
  In (Thumbnail image size) (calls w event) -> size = (150, 150).
Proof.
  intros Hin.
  destruct (parse_event event) as [[bucket key]|e] eqn:Hparse.
  - destruct (is_str key) eqn:Hstr.
    + destruct key as [| | |key| |]; try discriminate Hstr.
      destruct (is_image_key key) eqn:Hkey.
      * destruct (handler_calls_after_transform w event bucket key
                    Hparse Hkey) as (rest & Hcalls & Hrest).
        rewrite Hcalls in Hin. apply in_app_or in Hin as [Hin|Hin].
        -- destruct (fetch_and_transform w bucket key []) as [r tr] eqn:E.
           exact (fetch_and_transform_bound w bucket key r tr image size
                    E Hin).
        -- exfalso.
           pose proof (proj1 (forallb_forall _ _) Hrest _ Hin) as H.
           discriminate H.
      * exfalso. unfold calls, lambda_handler in Hin.
        rewrite Hparse, Hkey in Hin. exact Hin.
    + exfalso. unfold calls in Hin.
      rewrite (handler_non_string_key w event bucket key Hparse Hstr) in Hin.
      exact Hin.
  - exfalso. unfold calls, lambda_handler in Hin. rewrite Hparse in Hin.
    destruct (is_KeyError_or_IndexError e); exact Hin.
Qed.



(** ** The destination bucket is read late *)




(** ** Two invocations, one after the other *)

Lemma new_key_never_source (key : string) : new_key_of key <> key.
Proof.
  intros Heq. unfold new_key_of in Heq.
  assert (Hjoin : fst (OsPath.splitext key) +:+ snd (OsPath.splitext key)
                  = key).
  { destruct (splitext_cases key) as [-> | [-> Hd]]; cbn [fst snd];
      [apply append_nil_r | apply slice_join; lia]. }
  pose proof (splitext_extension key) as Hext.
  remember (fst (OsPath.splitext key)) as root eqn:Hroot.
  remember (snd (OsPath.splitext key)) as ext eqn:Hextdef.
  clear Hroot Hextdef. rewrite <- Hjoin in Heq. clear Hjoin key.
  rewrite <- (append_assoc "thumbnails/" root ".jpg") in Heq.
  assert (Hlen : String.length ext = 15%nat).
  { apply (f_equal String.length) in Heq.
    rewrite !length_append in Heq. simpl in Heq. lia. }
  destruct (append_eq_tail root ("thumbnails/" +:+ root) ".jpg" ext Heq)
    as [x Hx]; [rewrite Hlen; simpl; lia|].
  destruct Hext as [He | (e & He & Hdot)];
    rewrite He in *; [discriminate Hlen|].
  destruct x as [|c x].
  - apply (f_equal String.length) in Hx. simpl in Hx, Hlen. lia.
  - change (String "." e = String c (x +:+ ".jpg")) in Hx.
    injection Hx as _ ->.
    rewrite occurs_append in Hdot. apply orb_false_iff in Hdot as [_ Hdot].
    discriminate Hdot.
Qed.

(** An invocation uploads at most once, and only to the derived key. *)
Lemma handler_puts_shape (w : World) (event : json) :
  puts (calls w event) = []
  \/ exists bucket key req,
       parse_event event = Ok (bucket, JStr key)
       /\ puts (calls w event) = [req]
       /\ Key req = new_key_of key.
Proof.
  destruct (parse_event event) as [[bucket key]|e] eqn:Hparse.
  - destruct (is_str key) eqn:Hstr.
    + destruct key as [| | |key| |]; try discriminate Hstr.
      destruct (is_image_key key) eqn:Hkey.
      * rewrite (handler_puts w event bucket key Hparse Hkey).
        pose proof (transform_and_upload_cases w bucket key) as Hcases.
        destruct (transform_and_upload w bucket key []) as [[dest|e] tr];
          cbn [snd].
        -- destruct Hcases as (b & tr1 & db & _ & _ & _ & _ & _ & Hp).
           right. exists bucket, key. eexists.
           split; [reflexivity|]. split; [exact Hp | reflexivity].
        -- destruct Hcases as [[_ Hp] | [(b & _ & _ & _ & Hp)
                                       | (b & tr1 & db & _ & _ & _ & _ & Hp)]];
             [now left | now left |].
           right. exists bucket, key. eexists.
           split; [reflexivity|]. split; [exact Hp | reflexivity].
      * left. unfold calls, lambda_handler. now rewrite Hparse, Hkey.
    + left. unfold calls.
      now rewrite (handler_non_string_key w event bucket key Hparse Hstr).
  - left. unfold calls, lambda_handler. rewrite Hparse.
    now destruct (is_KeyError_or_IndexError e).
Qed.

(** A returned result on the processing path means one acknowledged
    upload. *)
Lemma handler_completed_upload (w : World) (event bucket : json)
    (key : string) (resp : Response) :
  parse_event event = Ok (bucket, JStr key) ->
  is_image_key key = true ->
  result w event = Ok resp ->
  exists req,
    puts (calls w event) = [req]
    /\ Key req = new_key_of key
    /\ s3_put_object w req = Ok tt.
Proof.
  intros Hparse Hkey Hres.
  rewrite (handler_puts w event bucket key Hparse Hkey).
  unfold result in Hres.
  rewrite (handler_run w event bucket key Hparse Hkey) in Hres.
  pose proof (transform_and_upload_cases w bucket key) as Hcases.
  destruct (transform_and_upload w bucket key []) as [[dest|e] tr];
    cbn [snd].
  - destruct Hcases as (b & tr1 & db & _ & _ & _ & Hput & _ & Hp).
    eexists. split; [exact Hp|]. split; [reflexivity | exact Hput].
  - destruct (report_failure_raises w key e tr) as [e' He'].
    rewrite He' in Hres. discriminate Hres.
Qed.

(** The handler sees a world only through the environment, the answers to
    its one fetch, and the other collaborators. *)
Lemma handler_same_worlds (wa wb : World) (event : json) :
  environ wa = environ wb ->
  s3_put_object wa = s3_put_object wb ->
  sns_publish wa = sns_publish wb ->
  pil_open wa = pil_open wb ->
  pil_thumbnail wa = pil_thumbnail wb ->
  pil_convert wa = pil_convert wb ->
  pil_save wa = pil_save wb ->
  (forall bucket key,
     parse_event event = Ok (bucket, JStr key) ->
     s3_get_object wa bucket key = s3_get_object wb bucket key) ->
  lambda_handler wa event [] = lambda_handler wb event [].
Proof.
  intros Henv Hput Hpub Hopen Hthumb Hconv Hsave Hget.
  unfold lambda_handler.
  destruct (parse_event event) as [[bucket key]|e]; [|reflexivity].
  destruct key as [| | |key| |]; try reflexivity.
  destruct (is_image_key key); [|reflexivity]. cbn [negb].
  specialize (Hget bucket key eq_refl).
  unfold try_except, process_image, report_failure, transform_and_upload,
    upload, notifications_enabled, environ_get, environ_getitem, bind.
  rewrite (fetch_and_transform_same wa wb bucket key []
             Hget Hopen Hthumb Hconv Hsave).
  now rewrite Henv, Hput, Hpub.
Qed.

(** The store an invocation leaves behind still holds the source object
    the invocation read: the upload goes to another key. *)
Lemma source_object_kept (w : World) (store : gmap (string * string) bytes)
    (event bucket : json) (key : string) :
  parse_event event = Ok (bucket, JStr key) ->
  store_get (store_after w store (calls w event)) bucket key
  = store_get store bucket key.
Proof.
  intros Hparse. unfold store_after.
  destruct (handler_puts_shape w event)
    as [-> | (bucket' & key' & req & Hparse' & -> & Hkey)]; [reflexivity|].
  rewrite Hparse in Hparse'. injection Hparse' as <- <-.
  cbn [apply_puts]. destruct (is_ok (s3_put_object w req)); [|reflexivity].
  unfold store_get. destruct bucket; try reflexivity.
  rewrite lookup_insert_ne; [reflexivity|].
  intros [= _ Hk]. rewrite Hkey in Hk.
  exact (new_key_never_source key Hk).
Qed.

(** C8.  Run the handler on an event, against a store, and then run it
    again on the same event, with the same environment, against the store
    the first invocation left behind.  The first invocation does not change
    the object it read, and the second sends the same upload requests as
    the first (same bucket, same key, byte-identical body) and leaves the
    store as it found it.  When the first invocation returns a result for
    an image key, both invocations make exactly one upload, to the derived
    key, the store holds those bytes under that key, and the second
    invocation returns the same result. *)
Theorem rerun_uploads_same_bytes (base : World)
    (store : gmap (string * string) bytes) (event : json) :
  let w1 := world_on base store in
  let store1 := store_after w1 store (calls w1 event) in
  let w2 := world_on base store1 in
  (forall bucket key,
     parse_event event = Ok (bucket, JStr key) ->
     s3_get_object w2 bucket key = s3_get_object w1 bucket key)
  /\ puts (calls w2 event) = puts (calls w1 event)
  /\ store_after w2 store1 (calls w2 event) = store1
  /\ (forall bucket key resp,
        parse_event event = Ok (bucket, JStr key) ->
        is_image_key key = true ->
        result w1 event = Ok resp ->
        exists req,
          puts (calls w1 event) = [req]
          /\ puts (calls w2 event) = [req]
          /\ Key req = "thumbnails/" +:+ fst (OsPath.splitext key) +:+ ".jpg"
          /\ store1 !! (Bucket req, Key req) = Some (Body req)
          /\ result w2 event = Ok resp).
Proof.
  intros w1 store1 w2.
  assert (Hsrc : forall bucket key,
             parse_event event = Ok (bucket, JStr key) ->
             s3_get_object w2 bucket key = s3_get_object w1 bucket key).
  { intros bucket key Hparse.
    exact (source_object_kept w1 store event bucket key Hparse). }
  assert (Hsame : lambda_handler w2 event [] = lambda_handler w1 event [])
    by (apply handler_same_worlds; solve [reflexivity | exact Hsrc]).
  assert (Hcalls : calls w2 event = calls w1 event)
    by (unfold calls; now rewrite Hsame).
  assert (Hresult : result w2 event = result w1 event)
    by (unfold result; now rewrite Hsame).
  split; [exact Hsrc|]. split; [now rewrite Hcalls|]. split.
  - rewrite Hcalls. unfold store1, store_after.
    destruct (handler_puts_shape w1 event)
      as [-> | (b & k & req & _ & -> & _)]; [reflexivity|].
    cbn [apply_puts].
    change (s3_put_object w2 req) with (s3_put_object w1 req).
    destruct (is_ok (s3_put_object w1 req)); [|reflexivity].
    apply insert_insert_eq.
  - intros bucket key resp Hparse Hkey Hres.
    destruct (handler_completed_upload w1 event bucket key resp
                Hparse Hkey Hres) as (req & Hputs & Hk & Hack).
    exists req. split; [exact Hputs|].
    split; [now rewrite Hcalls|]. split; [exact Hk|].
    split; [|now rewrite Hresult].
    unfold store1, store_after. rewrite Hputs. cbn [apply_puts].
    rewrite Hack. cbn [is_ok]. apply lookup_insert_eq.
Qed.

Lemma rerun_uploads_same_bytes_witness :
  puts (calls (world_on Sample.happy Sample.uploads_after_first)
          Sample.vacation)
  = [{| Bucket := "thumbs"; Key := "thumbnails/photos/vacation.jpg";
        Body := [Byte.xff; Byte.xd8; Byte.x89; Byte.x50];
        ContentType := "image/jpeg"; StorageClass := "STANDARD_IA" |}]
  /\ Sample.uploads_after_first
       !! ("thumbs", "thumbnails/photos/vacation.jpg")
     = Some [Byte.xff; Byte.xd8; Byte.x89; Byte.x50]
  /\ Sample.uploads_after_first !! ("uploads", "photos/vacation.PNG")
     = Some [Byte.x89; Byte.x50].
Proof.
  destruct (rerun_uploads_same_bytes Sample.happy Sample.uploads
              Sample.vacation) as (_ & _ & _ & Hdone).
  destruct (Hdone (JStr "uploads") "photos/vacation.PNG"
              (success_response "photos/vacation.PNG"
                 "thumbnails/photos/vacation.jpg"))
    as (req & Hp1 & Hp2 & _ & _ & _);
    [vm_compute; reflexivity | vm_compute; reflexivity
    | vm_compute; reflexivity |].
  assert (Hreq : req = {| Bucket := "thumbs";
                          Key := "thumbnails/photos/vacation.jpg";
                          Body := [Byte.xff; Byte.xd8; Byte.x89; Byte.x50];
                          ContentType := "image/jpeg";
                          StorageClass := "STANDARD_IA" |}).
  { vm_compute in Hp1. now injection Hp1 as <-. }
  subst req. split; [exact Hp2|].
  split; vm_compute; reflexivity.
Defined.
